(** * react-eyedrop: the EyeDropper component of src/index.js

    A shallow embedding of the component's methods and of the two pure
    computations they rely on (the running colour blend and the string
    encodings), followed by the properties proved about them.

    JavaScript numbers are IEEE-754 binary64 values: they are modelled by
    Rocq's primitive [float]s, whose operations are specified by
    [FloatAxioms] against [SpecFloat].  Channel values that cross the
    component's interfaces (canvas bytes, the arguments of [setColors]) are
    integers and are modelled by [Z]. *)

From Stdlib Require Import ZArith List String Ascii Bool Lia Floats.
From Stdlib Require DecimalString HexadecimalString.
Import ListNotations.
Open Scope string_scope.
Open Scope list_scope.
Open Scope Z_scope.

(** ** JavaScript numbers *)

Module JS.

(** The Number whose mathematical value is the integer [z] (correctly
    rounded when [z] has more than 53 significant bits). *)
Definition number (z : Z) : float :=
  SF2Prim (binary_normalize prec emax z 0 false).

(** Truncation toward zero of a finite Number; [None] on NaN and on the
    infinities. *)
Definition truncate (x : float) : option Z :=
  match Prim2SF x with
  | S754_zero _ => Some 0
  | S754_finite s m e => Some (cond_Zopp s (Z.shiftl (Zpos m) e))
  | S754_infinity _ | S754_nan => None
  end.

(** The binary64 value nearest to 1e-6: the smallest magnitude that
    Number::toString prints without an exponent. *)
Definition plain_min : float := 0x1.0c6f7a0b5ed8dp-20%float.

(** 1e21 (exactly representable): from here on Number::toString switches to
    exponent notation. *)
Definition plain_max : float := 1e21%float.

(** [x] is printed by Number::toString in plain positional notation. *)
Definition plain_decimal (x : float) : bool :=
  is_zero x || ((plain_min <=? abs x)%float && (abs x <? plain_max)%float).

(** [parseInt(x)] applied to a Number: [x] is first converted to its decimal
    string and the longest integer prefix of the string is parsed.  When
    the string is in positional notation the prefix is the integer part of
    [x], so the result is [x] truncated toward zero.  [None] stands for the
    other cases: NaN for NaN and the infinities, and the leading digit of
    the exponent notation for magnitudes below 1e-6 or from 1e21 on, which
    this development does not compute. *)
Definition parseInt (x : float) : option Z :=
  if plain_decimal x then truncate x else None.

(** [String(z)] for an integer-valued Number (below 1e21 in magnitude):
    its decimal digits, with a minus sign when negative. *)
Definition toString (z : Z) : string :=
  DecimalString.NilZero.string_of_int (Z.to_int z).

(** [z.toString(16)] for an integer [z]: lower-case hexadecimal digits, with
    a minus sign when negative. *)
Definition toString16 (z : Z) : string :=
  HexadecimalString.NilZero.string_of_int (Z.to_hex_int z).

(** Truthiness of an optional string property: [undefined] and the empty
    string are falsy. *)
Definition truthy (s : option string) : bool :=
  match s with
  | Some s => negb (s =? "")%string
  | None => false
  end.

End JS.

(** ** Colours and the blend of [calcAverageColor] *)

Record Color := { r : Z; g : Z; b : Z }.

(** The three running totals [totalR], [totalG], [totalB]. *)
Record Totals := { totalR : float; totalG : float; totalB : float }.

(** One call of the callback given to [colors.map]. *)
Definition accumulate (t : Totals) (index : nat) (c : Color) : Totals :=
  let tr := (totalR t + JS.number (r c) * JS.number (r c))%float in
  let tg := (totalG t + JS.number (g c) * JS.number (g c))%float in
  let tb := (totalB t + JS.number (b c) * JS.number (b c))%float in
  if Nat.eqb index 0 then {| totalR := tr; totalG := tg; totalB := tb |}
  else {| totalR := PrimFloat.sqrt (tr / 2);
          totalG := PrimFloat.sqrt (tg / 2);
          totalB := PrimFloat.sqrt (tb / 2) |}.

(** [colors.map(callback)] : the callback runs on every element in order,
    with its index. *)
Fixpoint map_totals (colors : list Color) (index : nat) (t : Totals) : Totals :=
  match colors with
  | [] => t
  | c :: rest => map_totals rest (S index) (accumulate t index c)
  end.

(** The argument that [calcAverageColor] hands to [setColors]. *)
Definition averageColor (colors : list Color) : option Color :=
  let t := map_totals colors 0 {| totalR := 0; totalG := 0; totalB := 0 |} in
  match JS.parseInt (totalR t), JS.parseInt (totalG t), JS.parseInt (totalB t) with
  | Some averageR, Some averageG, Some averageB =>
      Some {| r := averageR; g := averageG; b := averageB |}
  | _, _, _ => None
  end.

(** The reduction as the specification words it, one channel at a time:
    the accumulator starts at 0; each sample adds the square of its channel
    and every sample but the first then replaces the accumulator by
    [sqrt (accumulator / 2)]. *)
Fixpoint spec_blend (first : bool) (acc : float) (channel : list Z) : float :=
  match channel with
  | [] => acc
  | v :: rest =>
      let acc := (acc + JS.number v * JS.number v)%float in
      spec_blend false (if first then acc else PrimFloat.sqrt (acc / 2)) rest
  end.

Definition spec_channel (channel : list Z) : option Z :=
  JS.truncate (spec_blend true 0%float channel).

(** A sample as the pixel reader delivers it: three 8-bit channels. *)
Definition byte_channel (v : Z) : Prop := 0 <= v <= 255.

Definition byte_color (c : Color) : Prop :=
  byte_channel (r c) /\ byte_channel (g c) /\ byte_channel (b c).

(** ** String encodings *)

(** Modelled from the spec: the leading marker character of the hex form,
    which the specification does not name; the usual one is taken. *)
Definition hex_marker : string := "#".

(** Modelled from the spec: a channel is zero-padded to two hex digits. *)
Definition pad2 (s : string) : string :=
  if Nat.eqb (String.length s) 1 then ("0" ++ s)%string else s.

(** Modelled from the spec: [rgbToHex] is imported from ./rgbToHex, which is
    not among the sources.  The specification describes it as a leading
    marker character followed by its three arguments, each zero-padded to
    two hexadecimal digits, concatenated in argument order. *)
Definition rgbToHex (c1 c2 c3 : Z) : string :=
  (hex_marker ++ pad2 (JS.toString16 c1) ++ pad2 (JS.toString16 c2)
              ++ pad2 (JS.toString16 c3))%string.

(** The template literal of [setColors]. *)
Definition rgb_literal (c : Color) : string :=
  ("rgb(" ++ JS.toString (r c) ++ ", " ++ JS.toString (b c) ++ ", "
          ++ JS.toString (g c) ++ ")")%string.

Record Colors := { rgb : string; hex : string }.

Definition encode (c : Color) : Colors :=
  {| rgb := rgb_literal c; hex := rgbToHex (r c) (b c) (g c) |}.

(** ** The component and its environment *)

(** The optional callbacks of [Props]. *)
Inductive hook :=
  onInit | onPickStart | onPickClick | onPickStop | onPickCancel | onPickEnd.

Record PickRadius := { unit_ : string; amount : Z }.

Record Props := {
  supplied : hook -> bool;            (* which optional callbacks the host passed *)
  cursorActive_prop : option string;
  cursorInactive_prop : option string;
  passThrough : option string;
  pickRadius : option PickRadius }.

(** The two bound methods that are registered as event listeners. *)
Inductive listener := TargetToCanvas | HandleKeydown.

Definition Element := string.

Record MouseEvent := { target : Element; offsetX : Z; offsetY : Z }.

Record KeyboardEvent := { key : string }.

(** What [getCanvasPixelColor(canvas, x, y)] returns for a rendered canvas. *)
Definition Canvas := Z -> Z -> Color.

(** Calls that leave the component, in the order they are made. *)
Inductive effect :=
| Called (h : hook)
| OnChange (c : Colors)
| Html2canvas (el : Element)
| GetCanvasPixelColor (x y : Z).

(** The instance [this]. *)
Record EyeDropper := {
  props : Props;
  state_colors : Colors;
  cursorActive : string;
  cursorInactive : string;
  picking : bool }.

Record Document := {
  listeners : list (string * listener);
  body_cursor : string }.

(** A pending [html2canvas] promise: the variables its [then] callback
    closes over. *)
Record Job := { job_offsetX : Z; job_offsetY : Z; job_pickRadius : option PickRadius }.

Record World := {
  this : EyeDropper;
  document : Document;
  pending : list Job;
  trace : list effect }.

Definition emit (e : effect) (w : World) : World :=
  {| this := this w; document := document w; pending := pending w;
     trace := trace w ++ [e] |}.

(** Several effects in a row. *)
Definition log (es : list effect) (w : World) : World :=
  {| this := this w; document := document w; pending := pending w;
     trace := trace w ++ es |}.

Definition set_this (t : EyeDropper) (w : World) : World :=
  {| this := t; document := document w; pending := pending w; trace := trace w |}.

Definition set_document (d : Document) (w : World) : World :=
  {| this := this w; document := d; pending := pending w; trace := trace w |}.

Definition set_pending (p : list Job) (w : World) : World :=
  {| this := this w; document := document w; pending := p; trace := trace w |}.

Definition set_picking (v : bool) (w : World) : World :=
  set_this {| props := props (this w); state_colors := state_colors (this w);
              cursorActive := cursorActive (this w);
              cursorInactive := cursorInactive (this w); picking := v |} w.

Definition setState (c : Colors) (w : World) : World :=
  set_this {| props := props (this w); state_colors := c;
              cursorActive := cursorActive (this w);
              cursorInactive := cursorInactive (this w);
              picking := picking (this w) |} w.

Definition set_cursor (c : string) (w : World) : World :=
  set_document {| listeners := listeners (document w); body_cursor := c |} w.

Definition listener_eqb (a b : listener) : bool :=
  match a, b with
  | TargetToCanvas, TargetToCanvas | HandleKeydown, HandleKeydown => true
  | _, _ => false
  end.

Definition same_listener (type : string) (l : listener) (entry : string * listener) : bool :=
  (fst entry =? type)%string && listener_eqb (snd entry) l.

Definition listening (type : string) (l : listener) (w : World) : bool :=
  existsb (same_listener type l) (listeners (document w)).

(** [document.addEventListener(type, l)]: a listener already registered for
    the type is not added twice. *)
Definition addEventListener (type : string) (l : listener) (w : World) : World :=
  if listening type l w then w
  else set_document {| listeners := listeners (document w) ++ [(type, l)];
                       body_cursor := body_cursor (document w) |} w.

(** [document.removeEventListener(type, l)]. *)
Definition removeEventListener (type : string) (l : listener) (w : World) : World :=
  set_document
    {| listeners := filter (fun entry => negb (same_listener type l entry))
                           (listeners (document w));
       body_cursor := body_cursor (document w) |} w.

(** [if (hook) { hook() }]. *)
Definition call (h : hook) (w : World) : World :=
  if supplied (props (this w)) h then emit (Called h) w else w.

(** What [call] leaves in the trace. *)
Definition called (p : Props) (h : hook) : list effect :=
  if supplied p h then [Called h] else [].

Definition or_default (p : option string) (default : string) : string :=
  match p with
  | Some s => if JS.truthy p then s else default
  | None => default
  end.

(** [constructor(props)]. *)
Definition new_EyeDropper (p : Props) : EyeDropper :=
  {| props := p;
     state_colors := {| rgb := ""; hex := "" |};
     cursorActive := or_default (cursorActive_prop p) "copy";
     cursorInactive := or_default (cursorInactive_prop p) "auto";
     picking := false |}.

Definition componentDidMount (w : World) : World := call onInit w.

(** Mounting the component in a document. *)
Definition mount (p : Props) (d : Document) : World :=
  componentDidMount
    {| this := new_EyeDropper p; document := d; pending := []; trace := [] |}.

Definition componentWillUnmount (w : World) : World :=
  removeEventListener "keypress" HandleKeydown w.

Definition pickColor (w : World) : World :=
  let w := call onPickStart w in
  let w := set_cursor (cursorActive (this w)) w in
  let w := addEventListener "click" TargetToCanvas w in
  let w := addEventListener "keydown" HandleKeydown w in
  set_picking true w.

Definition stopPicking (w : World) : World :=
  let w := removeEventListener "click" TargetToCanvas w in
  let w := removeEventListener "keydown" HandleKeydown w in
  let w := set_cursor (cursorInactive (this w)) w in
  let w := call onPickStop w in
  set_picking false w.

Definition cancelPick (w : World) : World :=
  if picking (this w) then stopPicking (call onPickCancel w) else w.

Definition handleKeydown (e : KeyboardEvent) (w : World) : World :=
  if (key e =? "Escape")%string then cancelPick w else w.

(** The synchronous part of [targetToCanvas]: [html2canvas] is called and
    its [then] callback is left pending; then the click hook and the
    teardown run. *)
Definition targetToCanvas (e : MouseEvent) (w : World) : World :=
  let w := emit (Html2canvas (target e)) w in
  let w := set_pending
             (pending w ++ [ {| job_offsetX := offsetX e; job_offsetY := offsetY e;
                                job_pickRadius := pickRadius (props (this w)) |} ]) w in
  let w := call onPickClick w in
  stopPicking w.

Definition setColors (c : Color) (w : World) : World :=
  let colors := encode c in
  let w := if JS.truthy (passThrough (props (this w))) then setState colors w else w in
  let w := emit (OnChange colors) w in
  call onPickEnd w.

Definition extractColor (canvas : Canvas) (x y : Z) (w : World) : World :=
  let w := emit (GetCanvasPixelColor x y) w in
  setColors (canvas x y) w.

(** How a call that may throw or loop ends. *)
Inductive outcome :=
| Returned (w : World)
| Threw (message : string) (w : World)
| OutOfFuel
| Unmodelled.  (* [parseInt] left the fragment covered by [JS.parseInt] *)

Definition calcAverageColor (colors : list Color) (w : World) : outcome :=
  match averageColor colors with
  | Some c => Returned (setColors c w)
  | None => Unmodelled
  end.

(** [maxRadius] and [minRadius], or the message of the error thrown. *)
Definition radii (pr : PickRadius) : string + Z * Z :=
  if (unit_ pr =? "radius")%string then inr (amount pr, - amount pr - 1)
  else if (unit_ pr =? "pixel")%string then
    if negb (Z.rem (amount pr) 2 =? 0)
    then inr ((amount pr - 1) / 2, - ((amount pr - 1) / 2) - 1)
    else inl "[EyeDrop] The unit 'pixel' may only have an odd amount."
  else inl "[EyeDrop] Please define a proper unit type.".

(** [for (let i = start; i !== stop; i--) acc = body(i, acc)]. *)
Fixpoint for_down {A : Type} (fuel : nat) (i stop : Z)
    (body : Z -> A -> option A) (acc : A) : option A :=
  match fuel with
  | O => None
  | S fuel' =>
      if i =? stop then Some acc
      else match body i acc with
           | Some acc' => for_down fuel' (i - 1) stop body acc'
           | None => None
           end
  end.

(** The body of the inner loop. *)
Definition sample (canvas : Canvas) (offsetX offsetY x y : Z)
    (st : list Color * World) : list Color * World :=
  let radialOffsetX := offsetX - x in
  let radialOffsetY := offsetY - y in
  if negb (radialOffsetX <? 0) && negb (radialOffsetY <? 0)
  then (fst st ++ [canvas radialOffsetX radialOffsetY],
        emit (GetCanvasPixelColor radialOffsetX radialOffsetY) (snd st))
  else st.

(** The two nested loops of [extractColors]. *)
Definition gather (fuel : nat) (canvas : Canvas) (maxRadius minRadius : Z)
    (offsetX offsetY : Z) (w : World) : option (list Color * World) :=
  for_down fuel maxRadius minRadius
    (fun x st =>
       for_down fuel maxRadius minRadius
         (fun y st => Some (sample canvas offsetX offsetY x y st)) st)
    ([], w).

Definition extractColors (fuel : nat) (canvas : Canvas) (offsetX offsetY : Z)
    (w : World) : outcome :=
  match pickRadius (props (this w)) with
  | None => Threw "TypeError: Cannot destructure property of undefined" w
  | Some pr =>
      match radii pr with
      | inl message => Threw message w
      | inr (maxRadius, minRadius) =>
          match gather fuel canvas maxRadius minRadius offsetX offsetY w with
          | Some (colors, w') => calcAverageColor colors w'
          | None => OutOfFuel
          end
      end
  end.

(** The [then] callback of [targetToCanvas], run when the oldest pending
    promise is fulfilled with [canvas]. *)
Definition fulfil (fuel : nat) (canvas : Canvas) (w : World) : outcome :=
  match pending w with
  | [] => Returned w
  | job :: rest =>
      let w := set_pending rest w in
      match job_pickRadius job with
      | Some _ => extractColors fuel canvas (job_offsetX job) (job_offsetY job) w
      | None => Returned (extractColor canvas (job_offsetX job) (job_offsetY job) w)
      end
  end.

(** ** Runs of the component *)

(** What the environment can do to a mounted component. *)
Inductive action :=
| Press                          (* the control is clicked: [onClick = pickColor] *)
| Click (e : MouseEvent)         (* a click event reaches [document] *)
| KeyDown (e : KeyboardEvent)    (* a keydown event reaches [document] *)
| Fulfil (canvas : Canvas)       (* the oldest [html2canvas] promise settles *)
| Unmount.

(** The world after a callback that returned or threw; a callback that
    does not end leaves none. *)
Definition settled (o : outcome) : option World :=
  match o with
  | Returned w' | Threw _ w' => Some w'
  | OutOfFuel | Unmodelled => None
  end.

Definition step (fuel : nat) (a : action) (w : World) : option World :=
  match a with
  | Press => Some (pickColor w)
  | Click e =>
      Some (if listening "click" TargetToCanvas w then targetToCanvas e w else w)
  | KeyDown e =>
      Some (if listening "keydown" HandleKeydown w then handleKeydown e w else w)
  | Fulfil canvas => settled (fulfil fuel canvas w)
  | Unmount => Some (componentWillUnmount w)
  end.

Fixpoint run (fuel : nat) (actions : list action) (w : World) : option World :=
  match actions with
  | [] => Some w
  | a :: rest =>
      match step fuel a w with
      | Some w' => run fuel rest w'
      | None => None
      end
  end.

(** The callbacks invoked, in order. *)
Definition hooks_of (t : list effect) : list hook :=
  flat_map (fun e => match e with Called h => [h] | _ => [] end) t.

(** The order of the lifecycle callbacks as an automaton over the callbacks
    invoked: [Fresh] before mounting, [Armed] between pick-start and the
    click or the cancel key, [Clicked] and [Cancelling] while the teardown
    of a click or of a cancel is due.  The counter is the number of clicks
    whose pick-end has not fired. *)
Inductive phase := Fresh | Idle | Armed | Clicked | Cancelling.

Definition lifecycle (st : phase * nat) (h : hook) : option (phase * nat) :=
  match h, st with
  | onInit, (Fresh, n) => Some (Idle, n)
  | onPickStart, (Idle, n) | onPickStart, (Armed, n) => Some (Armed, n)
  | onPickClick, (Armed, n) => Some (Clicked, n)
  | onPickStop, (Clicked, n) => Some (Idle, S n)
  | onPickCancel, (Armed, n) => Some (Cancelling, n)
  | onPickStop, (Cancelling, n) => Some (Idle, n)
  | onPickEnd, (Idle, S n) => Some (Idle, n)
  | onPickEnd, (Armed, S n) => Some (Armed, n)
  | _, _ => None
  end.

Fixpoint accepts (st : phase * nat) (hs : list hook) : option (phase * nat) :=
  match hs with
  | [] => Some st
  | h :: rest =>
      match lifecycle st h with
      | Some st' => accepts st' rest
      | None => None
      end
  end.

Definition armed_of (ph : phase) : bool :=
  match ph with Armed => true | _ => false end.

(** What holds of a mounted component between two events, when every
    callback is supplied: the callbacks invoked so far are accepted by the
    lifecycle automaton, the automaton is armed exactly when the two
    listeners are registered and [picking] is set, and every pending
    promise is a click whose pick-end is still due. *)
Record consistent (w : World) (ph : phase) (due : nat) : Prop := {
  cs_supplied : forall h, supplied (props (this w)) h = true;
  cs_accepts : accepts (Fresh, O) (hooks_of (trace w)) = Some (ph, due);
  cs_phase : ph = Idle \/ ph = Armed;
  cs_click : listening "click" TargetToCanvas w = armed_of ph;
  cs_keydown : listening "keydown" HandleKeydown w = armed_of ph;
  cs_picking : picking (this w) = armed_of ph;
  cs_pending : (List.length (pending w) <= due)%nat }.

(** The sampling loops only read pixels. *)
Definition only_reads (w : World) (st : list Color * World) : Prop :=
  this (snd st) = this w /\ document (snd st) = document w /\
  pending (snd st) = pending w /\ hooks_of (trace (snd st)) = hooks_of (trace w).

(** No method of this instance is registered in the document yet. *)
Definition fresh_document (d : Document) : Prop :=
  forall type l, existsb (same_listener type l) (listeners d) = false.

(** ** The neighbourhood as the specification words it *)

Fixpoint countdown (start : Z) (n : nat) : list Z :=
  match n with
  | O => []
  | S n' => start :: countdown (start - 1) n'
  end.

(** The offsets from [maxRadius] down to, and excluding, [minRadius]. *)
Definition offsets (maxRadius minRadius : Z) : list Z :=
  countdown maxRadius (Z.to_nat (maxRadius - minRadius)).

Definition in_bitmap (p : Z * Z) : bool := negb (fst p <? 0) && negb (snd p <? 0).

Definition neighborhood (maxRadius minRadius cx cy : Z) : list (Z * Z) :=
  filter in_bitmap
    (flat_map (fun x => map (fun y => (cx - x, cy - y)) (offsets maxRadius minRadius))
              (offsets maxRadius minRadius)).

Definition spec_radii (pr : PickRadius) : Z * Z :=
  if (unit_ pr =? "pixel")%string
  then ((amount pr - 1) / 2, - ((amount pr - 1) / 2) - 1)
  else (amount pr, - amount pr - 1).

Definition valid_spec (pr : PickRadius) : Prop :=
  (unit_ pr = "radius" /\ 0 <= amount pr) \/
  (unit_ pr = "pixel" /\ Z.odd (amount pr) = true /\ 0 < amount pr).

Definition invalid_spec (pr : PickRadius) : Prop :=
  (unit_ pr <> "pixel" /\ unit_ pr <> "radius") \/
  (unit_ pr = "pixel" /\ Z.even (amount pr) = true).

(** The 5 x 5 grid centred on [(cx, cy)], column by column. *)
Definition grid5 (cx cy : Z) : list (Z * Z) :=
  list_prod (map (fun i => cx + i) [-2; -1; 0; 1; 2])
            (map (fun j => cy + j) [-2; -1; 0; 1; 2]).

Definition reads (coords : list (Z * Z)) : list effect :=
  map (fun p => GetCanvasPixelColor (fst p) (snd p)) coords.

Definition byte_canvas (canvas : Canvas) : Prop := forall x y, byte_color (canvas x y).

Definition pixel (canvas : Canvas) (p : Z * Z) : Color := canvas (fst p) (snd p).

(** The configured neighbourhood, if any, is valid and the fuel covers its
    loops. *)
Definition runnable (p : Props) (fuel : nat) : Prop :=
  match pickRadius p with
  | None => True
  | Some pr =>
      valid_spec pr /\
      (Z.to_nat (fst (spec_radii pr) - snd (spec_radii pr)) < fuel)%nat
  end.

(** A spec that passes the validation of [extractColors] with a negative
    amount. *)
Definition negative_spec (pr : PickRadius) : Prop :=
  amount pr < 0 /\
  (unit_ pr = "radius" \/ (unit_ pr = "pixel" /\ Z.odd (amount pr) = true)).

(** ** Sessions *)

(** The two listeners that [pickColor] registers, in its order. *)
Definition armed_listeners : list (string * listener) :=
  [("click", TargetToCanvas); ("keydown", HandleKeydown)].

Definition is_press (a : action) : bool :=
  match a with Press => true | _ => false end.

Definition is_rasterize (e : effect) : bool :=
  match e with Html2canvas _ => true | _ => false end.

Definition is_report (e : effect) : bool :=
  match e with OnChange _ => true | _ => false end.

Definition count (f : effect -> bool) (t : list effect) : nat :=
  List.length (filter f t).

Definition presses (actions : list action) : nat :=
  List.length (filter is_press actions).

(** One more rasterization is possible while the session is armed. *)
Definition arming (w : World) : nat := if picking (this w) then 1%nat else 0%nat.

(** What holds of a component mounted with [p] in a document that had no
    listener of it and the cursor [cursor], after [n] presses of the
    control. *)
Record session (p : Props) (cursor : string) (n : nat) (w : World) : Prop := {
  ss_props : props (this w) = p;
  ss_active : cursorActive (this w) = or_default (cursorActive_prop p) "copy";
  ss_inactive : cursorInactive (this w) = or_default (cursorInactive_prop p) "auto";
  ss_listeners :
    listeners (document w) = if picking (this w) then armed_listeners else [];
  ss_cursor :
    if picking (this w) then body_cursor (document w) = cursorActive (this w)
    else body_cursor (document w) = cursor \/
         body_cursor (document w) = cursorInactive (this w);
  ss_jobs : Forall (fun job => job_pickRadius job = pickRadius p) (pending w);
  ss_presses : (count is_rasterize (trace w) + arming w <= n)%nat;
  ss_reports :
    (count is_report (trace w) + List.length (pending w)
     <= count is_rasterize (trace w))%nat;
  ss_exact :
    (forall pr, pickRadius p = Some pr -> ~ invalid_spec pr) ->
    (count is_report (trace w) + List.length (pending w))%nat
    = count is_rasterize (trace w) }.

(** ** Values of binary64 numbers

    Every finite binary64 number is an integer multiple of 2^-1074; the
    facts about rounding below are stated on these integers. *)

Module B64.

(** Number of low bits that rounding to 53 bits drops from a mantissa. *)
Definition dropped (m : Z) : Z := Z.max 0 (Zdigits2 m - 53).

(** [m * 2^e] in units of 2^-1074. *)
Definition scaled (m e : Z) : Z := m * 2 ^ (e + 1074).

(** [Val x v]: [x] is +0 or a positive finite number, of value
    [v * 2^-1074]. *)
Inductive Val : spec_float -> Z -> Prop :=
| Val_zero : Val (S754_zero false) 0
| Val_finite m e :
    -1074 <= e -> Zpos m < 2 ^ 53 ->
    Val (S754_finite false m e) (scaled (Zpos m) e).

Definition two : spec_float := S754_finite false 4503599627370496 (-51).

(** 1 in units of 2^-1074. *)
Definition one : Z := 2 ^ 1074.

(** The square of a channel is computed exactly. *)
Definition square_ok (c : Z) : bool :=
  match Prim2SF (JS.number c * JS.number c) with
  | S754_zero false => c =? 0
  | S754_finite false m e =>
      (-1074 <=? e) && (Zpos m <? 2 ^ 53) && (scaled (Zpos m) e =? c * c * one)
  | _ => false
  end.

Definition bytes : list Z := map Z.of_nat (seq 0 256).

(** Bounds kept by an accumulator of the blend: at most [hi], and either 0
    or at least a quarter. *)
Definition Bounded (hi : Z) (x : float) : Prop :=
  exists v, Val (Prim2SF x) v /\ v <= hi /\ (v = 0 \/ one / 4 <= v).

(** After the first sample: a square of a byte, with room for rounding. *)
Definition hi1 : Z := 65026 * one.

(** After two samples or more: below 256. *)
Definition hi2 : Z := 256 * one - 1.

End B64.

(** ** Closed forms of the blend on bytes *)

(** The root mean square of two channels, rounded down. *)
Definition rms (a b : Z) : Z := Z.sqrt ((a * a + b * b) / 2).

(** The range left to a channel by its last sample [c] once three samples
    or more were blended. *)
Definition last_lo (c : Z) : Z := Z.sqrt (c * c / 2).
Definition last_hi (c : Z) : Z := Z.sqrt ((c * c + 256) / 2).

Module Tables.
Import B64.

Definition single_ok (c : Z) : bool :=
  match JS.parseInt (spec_blend true 0 [c]) with
  | Some z => z =? c * c
  | None => false
  end.

Definition pair_ok (a b : Z) : bool :=
  match JS.parseInt (spec_blend true 0 [a; b]) with
  | Some z => z =? rms a b
  | None => false
  end.

(** Bounds for one more step after two samples or more, as functions of the
    sample: the sum, its half and the root from above ([S], [H], [T], [R])
    and from below ([S'], [H'], [T'], [R']). *)
Definition A' (c : Z) : Z := if c =? 0 then one / 4 else c * c * one.
Definition S (c : Z) : Z := ((2 ^ 52 + 1) * (hi2 + c * c * one)) / 2 ^ 52 + 1.
Definition H (c : Z) : Z := (S c + 2 * (S c / 2 ^ 53 + 1)) / 2 + 1.
Definition T (c : Z) : Z :=
  (Z.sqrt ((2 * c * c + 513) * 2 ^ 38) + 1) * (one / 2 ^ 20).
Definition R (c : Z) : Z := ((2 ^ 52 + 1) * T c) / 2 ^ 52 + 1.
Definition S' (c : Z) : Z := ((2 ^ 52 - 1) * A' c) / 2 ^ 52.
Definition H' (c : Z) : Z := Z.min (((2 ^ 53 - 4) * S' c) / 2 ^ 54) ((S' c - 4) / 2).
Definition T' (c : Z) : Z :=
  Z.sqrt ((if c =? 0 then 1 else 4 * c * c) * 2 ^ 37 - 256) * (one / 2 ^ 20).
Definition R' (c : Z) : Z := ((2 ^ 52 - 1) * T' c) / (2 ^ 52 + 1).

Definition step_ok (c : Z) : bool :=
  let s := S c in let h := H c in let t := T c in let r := R c in
  let s' := S' c in let h' := H' c in let t' := T' c in let r' := R' c in
  ((2 ^ 52 + 1) * (hi2 + c * c * one) <=? 2 ^ 52 * s) &&
  (s + 2 * (s / 2 ^ 53 + 1) <=? 2 * h) &&
  (0 <=? t) && (h * 2 ^ 1074 <? t * t) &&
  ((2 ^ 52 + 1) * t <=? 2 ^ 52 * r) &&
  (s <? 2 ^ 1200) && (h <? 2 ^ 1200) &&
  (2 ^ 52 * s' <=? (2 ^ 52 - 1) * A' c) &&
  (2 ^ 54 * h' <=? (2 ^ 53 - 4) * s') && (2 * h' <=? s' - 4) &&
  (0 <=? t') && (t' * t' <=? h' * 2 ^ 1074) &&
  ((2 ^ 52 + 1) * r' <=? (2 ^ 52 - 1) * t') &&
  (r <? (last_hi c + 1) * one) && (last_lo c * one <=? r') &&
  (one / 4 <=? r') && (last_hi c <=? 180) && (0 <? h').

End Tables.

(** * Rounding facts for binary64

    [SpecFloat] defines the operations on mantissa and exponent; the lemmas
    below bound the value each operation returns, for non-negative
    arguments, in units of 2^-1074. *)

Module Rounding.
Import B64.

Lemma fexp_eq e : fexp prec emax e = Z.max (e - 53) (-1074).
Proof. reflexivity. Qed.

Lemma digits2_size m : digits2_pos m = Pos.size m.
Proof. induction m; simpl; congruence. Qed.

Lemma digits_bounds m :
  2 ^ (Zpos (digits2_pos m) - 1) <= Zpos m < 2 ^ Zpos (digits2_pos m).
Proof.
  rewrite digits2_size. split.
  - pose proof (Pos.size_le m) as H.
    assert (E : Zpos (2 ^ Pos.size m) = 2 ^ Zpos (Pos.size m)) by apply Pos2Z.inj_pow.
    assert (2 ^ Zpos (Pos.size m) = 2 * 2 ^ (Zpos (Pos.size m) - 1)).
    { rewrite <- Z.pow_succ_r by lia. f_equal. lia. }
    assert (Zpos (2 ^ Pos.size m) <= Zpos m~0) by (apply Pos2Z.pos_le_pos; exact H).
    lia.
  - pose proof (Pos.size_gt m) as H.
    rewrite <- Pos2Z.inj_pow. apply Pos2Z.pos_lt_pos. exact H.
Qed.

Lemma shr_1_m mrs : 0 <= shr_m mrs -> shr_m (shr_1 mrs) = shr_m mrs / 2.
Proof.
  destruct mrs as [m r0 s0]. simpl. intros H.
  destruct m as [|p|p]; try lia.
  - reflexivity.
  - destruct p; simpl shr_m.
    + rewrite Pos2Z.inj_xI. apply Z.div_unique with (r := 1); lia.
    + rewrite Pos2Z.inj_xO. apply Z.div_unique with (r := 0); lia.
    + reflexivity.
Qed.

Lemma iter_shr_m p : forall mrs, 0 <= shr_m mrs ->
  shr_m (iter_pos shr_1 p mrs) = shr_m mrs / 2 ^ Zpos p.
Proof.
  induction p as [p IH|p IH|]; intros mrs H; simpl iter_pos.
  - assert (H1 : 0 <= shr_m (shr_1 mrs)).
    { rewrite shr_1_m by assumption. apply Z.div_pos; lia. }
    assert (H2 : 0 <= shr_m (iter_pos shr_1 p (shr_1 mrs))).
    { rewrite IH by assumption. apply Z.div_pos; [assumption|]. apply Z.pow_pos_nonneg; lia. }
    rewrite IH, IH, shr_1_m by assumption.
    rewrite !Z.div_div by (try apply Z.pow_pos_nonneg; lia).
    f_equal. replace (Zpos p~1) with (1 + Zpos p + Zpos p) by lia.
    rewrite !Z.pow_add_r by lia. change (2 ^ 1) with 2. ring.
  - assert (H2 : 0 <= shr_m (iter_pos shr_1 p mrs)).
    { rewrite IH by assumption. apply Z.div_pos; [assumption|]. apply Z.pow_pos_nonneg; lia. }
    rewrite IH, IH by assumption.
    rewrite !Z.div_div by (try apply Z.pow_pos_nonneg; lia).
    f_equal. replace (Zpos p~0) with (Zpos p + Zpos p) by lia.
    rewrite Z.pow_add_r by lia. reflexivity.
  - rewrite shr_1_m by assumption. reflexivity.
Qed.

Lemma shr_m_of_loc m l : shr_m (shr_record_of_loc m l) = m.
Proof. destruct l as [|[| |]]; reflexivity. Qed.

Lemma loc_of_loc m l : loc_of_shr_record (shr_record_of_loc m l) = l.
Proof. destruct l as [|[| |]]; reflexivity. Qed.


Lemma shr_fexp_spec m e l :
  0 <= m -> -1074 <= e ->
  shr_m (fst (shr_fexp prec emax m e l)) = m / 2 ^ dropped m /\
  snd (shr_fexp prec emax m e l) = e + dropped m /\
  (Zdigits2 m <= 53 -> fst (shr_fexp prec emax m e l) = shr_record_of_loc m l).
Proof.
  intros Hm He. unfold shr_fexp, dropped. rewrite fexp_eq.
  assert (Hd : 0 <= Zdigits2 m) by (destruct m; simpl; lia).
  destruct (Z_le_gt_dec (Zdigits2 m) 53) as [Hle|Hgt].
  - replace (Z.max 0 (Zdigits2 m - 53)) with 0 by lia.
    assert (Hn : Z.max (Zdigits2 m + e - 53) (-1074) - e <= 0) by lia.
    unfold shr.
    destruct (Z.max (Zdigits2 m + e - 53) (-1074) - e) as [|p|p] eqn:E; try lia;
      simpl fst; simpl snd; rewrite shr_m_of_loc, Z.div_1_r; repeat split; auto; lia.
  - replace (Z.max 0 (Zdigits2 m - 53)) with (Zdigits2 m - 53) by lia.
    replace (Z.max (Zdigits2 m + e - 53) (-1074) - e) with (Zdigits2 m - 53) by lia.
    unfold shr.
    destruct (Zdigits2 m - 53) as [|p|p] eqn:E; try lia.
    simpl fst; simpl snd. rewrite iter_shr_m by (rewrite shr_m_of_loc; assumption).
    rewrite shr_m_of_loc. repeat split; auto; lia.
Qed.

Lemma round_nearest_even_cases m l :
  (round_nearest_even m l = m \/ round_nearest_even m l = m + 1) /\
  (l = loc_Exact -> round_nearest_even m l = m).
Proof.
  destruct l as [|[| |]]; simpl; try destruct (Z.even m); auto; split; auto; discriminate.
Qed.



Lemma Zdigits2_le m k : 0 < m -> 0 <= k -> (Zdigits2 m <= k <-> m < 2 ^ k).
Proof.
  intros Hm Hk. destruct m as [|p|p]; try lia. simpl Zdigits2.
  pose proof (digits_bounds p) as [Hlo Hhi]. split; intros H.
  - eapply Z.lt_le_trans; [exact Hhi|]. apply Z.pow_le_mono_r; lia.
  - destruct (Z_le_gt_dec (Zpos (digits2_pos p)) k) as [|Hgt]; [assumption|].
    assert (2 ^ k <= 2 ^ (Zpos (digits2_pos p) - 1)) by (apply Z.pow_le_mono_r; lia).
    lia.
Qed.

Lemma dropped_bounds m :
  0 <= m -> 0 <= dropped m /\ m / 2 ^ dropped m < 2 ^ 53 /\
  (0 < dropped m -> 2 ^ 52 <= m / 2 ^ dropped m).
Proof.
  intros Hm. unfold dropped.
  destruct m as [|p|p]; try lia.
  - simpl. split; [lia|]. split; [reflexivity|lia].
  - simpl Zdigits2. pose proof (digits_bounds p) as [Hlo Hhi].
    set (d := Zpos (digits2_pos p)) in *.
    destruct (Z_le_gt_dec d 53) as [Hle|Hgt].
    + replace (Z.max 0 (d - 53)) with 0 by lia. rewrite Z.div_1_r.
      split; [lia|]. split; [|lia].
      eapply Z.lt_le_trans; [exact Hhi|]. apply Z.pow_le_mono_r; lia.
    + replace (Z.max 0 (d - 53)) with (d - 53) by lia.
      assert (Hp : 0 < 2 ^ (d - 53)) by (apply Z.pow_pos_nonneg; lia).
      split; [lia|]. split.
      * apply Z.div_lt_upper_bound; [assumption|].
        rewrite <- Z.pow_add_r by lia. replace (d - 53 + 53) with d by lia. exact Hhi.
      * intros _. apply Z.div_le_lower_bound; [assumption|].
        rewrite <- Z.pow_add_r by lia. replace (d - 53 + 52) with (d - 1) by lia. exact Hlo.
Qed.

Lemma binary_round_aux_spec mx ex lx :
  0 <= mx -> -1074 <= ex -> ex + dropped mx <= 970 ->
  exists m2,
    (m2 = mx / 2 ^ dropped mx \/ m2 = mx / 2 ^ dropped mx + 1) /\
    (lx = loc_Exact -> dropped mx = 0 -> m2 = mx) /\
    Val (binary_round_aux prec emax false mx ex lx) (scaled m2 (ex + dropped mx)).
Proof.
  intros Hm He Hov.
  destruct (shr_fexp_spec mx ex lx Hm He) as (H1 & H2 & H3).
  destruct (dropped_bounds mx Hm) as (Hn & Hlt & _).
  unfold binary_round_aux.
  destruct (shr_fexp prec emax mx ex lx) as [mrs' e'] eqn:E1.
  simpl fst in *; simpl snd in *. subst e'.
  set (m1 := mx / 2 ^ dropped mx) in *.
  set (m2 := round_nearest_even (shr_m mrs') (loc_of_shr_record mrs')).
  assert (Hm1 : 0 <= m1) by (apply Z.div_pos; [lia|apply Z.pow_pos_nonneg; lia]).
  assert (Hm2 : (m2 = m1 \/ m2 = m1 + 1)).
  { unfold m2. rewrite H1. apply round_nearest_even_cases. }
  assert (Hex : lx = loc_Exact -> dropped mx = 0 -> m2 = mx).
  { intros -> Hz. unfold m2. rewrite H3.
    - rewrite shr_m_of_loc, loc_of_loc. reflexivity.
    - unfold dropped in Hz. lia. }
  exists m2. split; [exact Hm2|]. split; [exact Hex|].
  assert (Hm2' : 0 <= m2 <= 2 ^ 53) by lia.
  assert (He1 : -1074 <= ex + dropped mx) by lia.
  destruct (shr_fexp_spec m2 (ex + dropped mx) loc_Exact (proj1 Hm2') He1) as (G1 & G2 & _).
  destruct (shr_fexp prec emax m2 (ex + dropped mx) loc_Exact) as [mrs'' e''] eqn:E2.
  simpl fst in *; simpl snd in *. subst e''.
  destruct (Z.eq_dec m2 0) as [Hz|Hnz].
  - rewrite Hz in G1. change (dropped 0) with 0 in G1. rewrite Z.div_1_r in G1.
    rewrite G1, Hz. unfold scaled. rewrite Z.mul_0_l. constructor.
  - destruct (Z_lt_le_dec m2 (2 ^ 53)) as [Hs|Hb].
    + assert (Hd : dropped m2 = 0).
      { unfold dropped. assert (Zdigits2 m2 <= 53) by (apply Zdigits2_le; lia). lia. }
      rewrite Hd, Z.div_1_r in G1. rewrite G1, Hd, Z.add_0_r.
      destruct m2 as [|p|p]; try lia.
      replace (ex + dropped mx <=? emax - prec) with true
        by (symmetry; apply Z.leb_le; change (emax - prec) with 971; lia).
      constructor; lia.
    + assert (Hq : m2 = 2 ^ 53) by lia.
      rewrite Hq in G1 |- *. change (dropped (2 ^ 53)) with 1 in *.
      change (2 ^ 53 / 2 ^ 1) with (Zpos (2 ^ 52)) in G1. rewrite G1.
      replace (ex + dropped mx + 1 <=? emax - prec) with true
        by (symmetry; apply Z.leb_le; change (emax - prec) with 971; lia).
      replace (scaled (2 ^ 53) (ex + dropped mx))
        with (scaled (Zpos (2 ^ 52)) (ex + dropped mx + 1)).
      * constructor; [lia|reflexivity].
      * unfold scaled. replace (ex + dropped mx + 1 + 1074) with (1 + (ex + dropped mx + 1074)) by lia.
        rewrite Z.pow_add_r by lia. change (2 ^ 53) with (Zpos (2 ^ 52) * 2 ^ 1). ring.
Qed.


Lemma scaled_pos_pow e : -1074 <= e -> 0 < 2 ^ (e + 1074).
Proof. intros. apply Z.pow_pos_nonneg; lia. Qed.

Lemma no_overflow m e :
  0 <= m -> -1074 <= e -> e <= 970 -> scaled m e < 2 ^ 2000 -> e + dropped m <= 970.
Proof.
  intros Hm He He' Hlt. unfold dropped.
  destruct m as [|p|p]; try lia.
  - simpl. lia.
  - simpl Zdigits2. pose proof (digits_bounds p) as [Hlo _].
    set (d := Zpos (digits2_pos p)) in *.
    assert (Hd : 1 <= d) by (unfold d; lia).
    assert (H : 2 ^ (d - 1 + (e + 1074)) < 2 ^ 2000).
    { eapply Z.le_lt_trans; [|exact Hlt]. unfold scaled.
      rewrite Z.pow_add_r by lia. apply Z.mul_le_mono_nonneg_r; [|exact Hlo].
      apply Z.pow_nonneg; lia. }
    apply Z.pow_lt_mono_r_iff in H; lia.
Qed.

Lemma binary_round_aux_bounds mx ex lx :
  0 <= mx -> -1074 <= ex -> ex <= 970 -> scaled mx ex < 2 ^ 2000 ->
  lx = loc_Exact \/ 2 ^ 52 <= mx \/ ex = -1074 ->
  exists v u,
    Val (binary_round_aux prec emax false mx ex lx) v /\
    2 ^ (ex + 1074) <= u /\
    scaled mx ex - u < v <= scaled mx ex + u /\
    (2 ^ 52 * u <= scaled mx ex \/
     (lx <> loc_Exact /\ u = 1 /\ scaled mx ex <= v) \/ v = scaled mx ex).
Proof.
  intros Hm He He' Hlt Hc.
  pose proof (no_overflow mx ex Hm He He' Hlt) as Hov.
  destruct (binary_round_aux_spec mx ex lx Hm He Hov) as (m2 & Hm2 & Hex & HV).
  destruct (dropped_bounds mx Hm) as (Hn & _ & Hbig).
  set (n := dropped mx) in *.
  set (u0 := 2 ^ (ex + 1074)).
  assert (Hu0 : 0 < u0) by (apply scaled_pos_pow; assumption).
  assert (Hn2 : 0 < 2 ^ n) by (apply Z.pow_pos_nonneg; lia).
  assert (Eu : 2 ^ (ex + n + 1074) = 2 ^ n * u0).
  { unfold u0. rewrite <- Z.pow_add_r by lia. f_equal. lia. }
  exists (scaled m2 (ex + n)), (2 ^ n * u0).
  split; [exact HV|].
  unfold scaled in *. rewrite Eu. fold u0.
  pose proof (Z.div_mod mx (2 ^ n) ltac:(lia)) as Hdm.
  pose proof (Z.mod_pos_bound mx (2 ^ n) Hn2) as Hmod.
  set (m1 := mx / 2 ^ n) in *. set (rm := mx mod 2 ^ n) in *.
  assert (Hq : mx * u0 = m1 * (2 ^ n * u0) + rm * u0) by (rewrite Hdm at 1; ring).
  assert (Hr : 0 <= rm * u0 < 2 ^ n * u0).
  { split; [apply Z.mul_nonneg_nonneg; lia|]. apply Z.mul_lt_mono_pos_r; lia. }
  split; [nia|].
  split.
  - destruct Hm2 as [-> | ->]; nia.
  - destruct (Z.eq_dec n 0) as [Hz|Hnz].
    + assert (E1 : 2 ^ n = 1) by (rewrite Hz; reflexivity).
      assert (Em : m1 = mx) by (unfold m1; rewrite E1; apply Z.div_1_r).
      rewrite E1 in *. rewrite Z.mul_1_l in *.
      assert (Hd : lx = loc_Exact \/ lx <> loc_Exact)
        by (destruct lx; [left; reflexivity|right; discriminate]).
      destruct Hd as [Hd|Hd].
      * right; right. rewrite (Hex Hd Hz). reflexivity.
      * destruct Hc as [Hc|[Hc|Hc]]; [contradiction| |].
        -- left. nia.
        -- right; left. split; [exact Hd|]. split.
           ++ unfold u0. rewrite Hc. reflexivity.
           ++ destruct Hm2 as [-> | ->]; nia.
    + left. assert (2 ^ 52 <= m1) by (apply Hbig; lia). nia.
Qed.

Lemma iter_xO m d : Zpos (Pos.iter xO m d) = Zpos m * 2 ^ Zpos d.
Proof.
  induction d as [|d IH] using Pos.peano_ind.
  - simpl. lia.
  - rewrite Pos.iter_succ, Pos2Z.inj_xO, IH, Pos2Z.inj_succ, Z.pow_succ_r by lia. ring.
Qed.

Lemma shl_align_spec mx ex ex' :
  snd (shl_align mx ex ex') = Z.min ex ex' /\
  Zpos (fst (shl_align mx ex ex')) = Zpos mx * 2 ^ (ex - Z.min ex ex').
Proof.
  unfold shl_align. destruct (ex' - ex) as [|p|p] eqn:E; simpl fst; simpl snd.
  - replace (Z.min ex ex') with ex by lia. rewrite Z.sub_diag. split; lia.
  - replace (Z.min ex ex') with ex by lia. rewrite Z.sub_diag. split; lia.
  - replace (Z.min ex ex') with ex' by lia. split; [reflexivity|].
    rewrite iter_xO. f_equal. f_equal. lia.
Qed.

Lemma scaled_shift m e e' :
  -1074 <= e' <= e -> scaled (m * 2 ^ (e - e')) e' = scaled m e.
Proof.
  intros H. unfold scaled. rewrite <- Z.mul_assoc, <- Z.pow_add_r by lia.
  f_equal. f_equal. lia.
Qed.

Lemma Val_nonneg x v : Val x v -> 0 <= v.
Proof.
  intros []; [lia|]. unfold scaled. apply Z.mul_nonneg_nonneg; [lia|].
  apply Z.pow_nonneg; lia.
Qed.

Lemma Val_exp m e : -1074 <= e -> 2 ^ (e + 1074) <= scaled (Zpos m) e.
Proof.
  intros H. unfold scaled. pose proof (scaled_pos_pow e H). nia.
Qed.

Lemma exp_le_of_scaled m e k :
  -1074 <= e -> 0 <= k -> scaled (Zpos m) e < 2 ^ k -> e + 1074 < k.
Proof.
  intros He Hk H. pose proof (Val_exp m e He).
  assert (2 ^ (e + 1074) < 2 ^ k) by lia.
  apply Z.pow_lt_mono_r_iff in H1; lia.
Qed.

(** Addition of two non-negative values. *)
Lemma SFadd_bounds x y vx vy :
  Val x vx -> Val y vy -> vx + vy < 2 ^ 2000 ->
  exists v,
    Val (SF64add x y) v /\
    (2 ^ 52 - 1) * (vx + vy) <= 2 ^ 52 * v <= (2 ^ 52 + 1) * (vx + vy).
Proof.
  intros Hx Hy Hlt.
  pose proof (Val_nonneg _ _ Hx) as Px. pose proof (Val_nonneg _ _ Hy) as Py.
  destruct Hx as [|mx ex Hex Hmx]; destruct Hy as [|my ey Hey Hmy].
  - exists 0. split; [constructor|lia].
  - exists (scaled (Zpos my) ey). split; [constructor; assumption|lia].
  - exists (scaled (Zpos mx) ex). split; [constructor; assumption|lia].
  - unfold SF64add, SFadd, cond_Zopp.
    destruct (shl_align_spec mx ex (Z.min ex ey)) as [_ Ex].
    destruct (shl_align_spec my ey (Z.min ex ey)) as [_ Ey].
    replace (Z.min ex (Z.min ex ey)) with (Z.min ex ey) in Ex by lia.
    replace (Z.min ey (Z.min ex ey)) with (Z.min ex ey) in Ey by lia.
    set (ez := Z.min ex ey) in *.
    set (ax := fst (shl_align mx ex ez)) in *.
    set (ay := fst (shl_align my ey ez)) in *.
    change (Zpos ax + Zpos ay) with (Zpos (ax + ay)).
    unfold binary_normalize, binary_round.
    pose proof (fexp_eq (Zpos (digits2_pos (ax + ay)) + ez)) as Hfe.
    set (fe := fexp prec emax (Zpos (digits2_pos (ax + ay)) + ez)) in *.
    destruct (shl_align_spec (ax + ay) ez fe) as [Es Em].
    destruct (shl_align (ax + ay) ez fe) as [mz ez'] eqn:E.
    simpl fst in *; simpl snd in *.
    assert (Hez : -1074 <= ez) by (unfold ez; lia).
    assert (Hez' : -1074 <= ez' <= ez) by lia.
    assert (HQ : scaled (Zpos mz) ez' = scaled (Zpos mx) ex + scaled (Zpos my) ey).
    { rewrite Em, <- Es. rewrite scaled_shift by lia.
      rewrite Pos2Z.inj_add, Ex, Ey. unfold scaled.
      rewrite Z.mul_add_distr_r, <- !Z.mul_assoc, <- !Z.pow_add_r by lia.
      f_equal; f_equal; f_equal; lia. }
    assert (Hk : ez' + 1074 < 2000) by (apply (exp_le_of_scaled mz); lia).
    destruct (binary_round_aux_bounds (Zpos mz) ez' loc_Exact) as (v & u & HV & Hu & Hb & Hc);
      try lia.
    + left; reflexivity.
    + exists v. split; [exact HV|].
      rewrite HQ in *.
      assert (0 < 2 ^ (ez' + 1074)) by (apply scaled_pos_pow; lia).
      destruct Hc as [Hc|[[Hc _]|Hc]]; [lia|congruence|lia].
Qed.



Lemma digits_le_53 m : Zpos m < 2 ^ 53 -> 1 <= Zpos (digits2_pos m) <= 53.
Proof.
  intros H. split; [lia|]. apply (Zdigits2_le (Zpos m) 53); lia.
Qed.

Lemma SFdiv_core_two mx ex :
  -1074 <= ex -> Zpos mx < 2 ^ 53 ->
  exists q e' l,
    SFdiv_core_binary prec emax (Zpos mx) ex 4503599627370496 (-51) = (q, e', l) /\
    0 <= q /\ -1074 <= e' <= ex + 51 /\
    2 * scaled q e' <= scaled (Zpos mx) ex < 2 * (scaled q e' + 2 ^ (e' + 1074)) /\
    (2 ^ 52 <= q \/ e' = -1074).
Proof.
  intros He Hm. unfold SFdiv_core_binary.
  change (Zdigits2 4503599627370496) with 53. simpl Zdigits2.
  pose proof (digits_le_53 mx Hm) as Hd. pose proof (digits_bounds mx) as [Hlo _].
  set (d := Zpos (digits2_pos mx)) in *.
  pose proof (fexp_eq (d + ex - (53 + -51))) as Hfe.
  set (fe := fexp prec emax (d + ex - (53 + -51))) in *.
  replace (Z.min fe (ex - -51)) with fe by lia.
  assert (Hs : 0 < ex - -51 - fe) by lia.
  destruct (ex - -51 - fe) as [|s|s] eqn:Es; try lia.
  rewrite Z.shiftl_mul_pow2 by lia.
  pose proof (Z_div_mod (Zpos mx * 2 ^ Zpos s) 4503599627370496 eq_refl) as Hdm.
  destruct (Z.div_eucl (Zpos mx * 2 ^ Zpos s) 4503599627370496) as [q rr].
  destruct Hdm as [Hdm Hr].
  exists q, fe, (new_location 4503599627370496 rr).
  split; [reflexivity|].
  assert (Hp : 0 < 2 ^ (fe + 1074)) by (apply scaled_pos_pow; lia).
  assert (Hq : 0 <= q) by nia.
  split; [exact Hq|]. split; [lia|].
  assert (Ev : scaled (Zpos mx) ex * 2 ^ 51 = Zpos mx * 2 ^ Zpos s * 2 ^ (fe + 1074)).
  { unfold scaled. rewrite <- !Z.mul_assoc, <- !Z.pow_add_r by lia.
    f_equal. f_equal. lia. }
  split.
  - unfold scaled in *. change (2 ^ 51) with 2251799813685248 in Ev. nia.
  - destruct (Z.eq_dec fe (-1074)) as [Hz|Hnz]; [right; exact Hz|left].
    assert (Efe : fe = d + ex - 55) by lia.
    assert (Hs' : Zpos s = 106 - d) by lia.
    assert (Hbig : 2 ^ 105 <= Zpos mx * 2 ^ Zpos s).
    { replace 105 with (d - 1 + Zpos s) by lia. rewrite Z.pow_add_r by lia.
      apply Z.mul_le_mono_nonneg_r; [apply Z.pow_nonneg; lia|exact Hlo]. }
    change (2 ^ 105) with 40564819207303340847894502572032 in Hbig.
    change (2 ^ 52) with 4503599627370496. lia.
Qed.

Lemma SFdiv_two_bounds x vx :
  Val x vx -> vx < 2 ^ 1900 ->
  exists v u,
    Val (SF64div x two) v /\ 0 < u /\ (2 ^ 53 * u <= vx \/ u = 1) /\
    vx - 4 * u <= 2 * v <= vx + 2 * u /\ (vx = 0 -> v = 0).
Proof.
  intros Hx Hlt. destruct Hx as [|mx ex Hex Hmx].
  - exists 0, 1. split; [constructor|lia].
  - pose proof (Val_exp mx ex Hex) as Hpos.
    pose proof (scaled_pos_pow ex Hex) as Hpos'.
    unfold SF64div, SFdiv, two.
    destruct (SFdiv_core_two mx ex Hex Hmx) as (q & e' & l & -> & Hq & He' & Hb & Hc).
    assert (Hk : ex + 1074 < 1900) by (apply (exp_le_of_scaled mx); lia).
    assert (Hp : 0 < 2 ^ (e' + 1074)) by (apply scaled_pos_pow; lia).
    assert (H2k : 2 ^ 1900 < 2 ^ 2000) by (apply Z.pow_lt_mono_r; lia).
    assert (Hc' : l = loc_Exact \/ 2 ^ 52 <= q \/ e' = -1074)
      by (destruct Hc; [right; left; assumption|right; right; assumption]).
    assert (Hql : scaled q e' < 2 ^ 2000) by lia.
    destruct (binary_round_aux_bounds q e' l Hq (proj1 He') ltac:(lia) Hql Hc')
      as (v & u & HV & Hu & Hvb & Hd).
    simpl xorb.
    change (2 ^ 52) with 4503599627370496 in *. change (2 ^ 53) with 9007199254740992.
    destruct Hd as [Hd|[(_ & Hd & Hd')|Hd]].
    + exists v, u. split; [exact HV|]. lia.
    + exists v, u. split; [exact HV|]. lia.
    + exists v, (2 ^ (e' + 1074)). split; [exact HV|]. split; [lia|]. split; [|lia].
      destruct Hc as [Hc|Hc].
      * left. unfold scaled in *. nia.
      * right. rewrite Hc. reflexivity.
Qed.

Lemma sqrt_ge_pow m q rr :
  2 ^ 104 <= m -> m = q * q + rr -> 0 <= rr <= 2 * q -> 2 ^ 52 <= q.
Proof.
  intros Hm E Hr. change (2 ^ 104) with (2 ^ 52 * 2 ^ 52) in Hm.
  change (2 ^ 52) with 4503599627370496 in *. nia.
Qed.

Lemma SFsqrt_core mx ex :
  -1074 <= ex ->
  exists q e' l,
    SFsqrt_core_binary prec emax (Zpos mx) ex = (q, e', l) /\
    2 ^ 52 <= q /\ -1074 <= e' /\ 2 * e' <= ex /\
    scaled q e' * scaled q e' <= scaled (Zpos mx) ex * 2 ^ 1074
      < (scaled q e' + 2 ^ (e' + 1074)) * (scaled q e' + 2 ^ (e' + 1074)).
Proof.
  intros He. unfold SFsqrt_core_binary. simpl Zdigits2.
  pose proof (digits_bounds mx) as [Hlo _].
  set (d := Zpos (digits2_pos mx)) in *.
  assert (Hd : 1 <= d) by (unfold d; lia).
  pose proof (fexp_eq (Z.div2 (d + ex + 1))) as Hfe.
  set (fe := fexp prec emax (Z.div2 (d + ex + 1))) in *.
  rewrite Z.div2_div in Hfe.
  set (e' := Z.min fe (Z.div2 ex)).
  assert (He1 : -1074 <= e')
    by (unfold e'; rewrite Z.div2_div; Z.div_mod_to_equations; lia).
  assert (He2 : 2 * e' <= ex)
    by (unfold e'; rewrite Z.div2_div; Z.div_mod_to_equations; lia).
  assert (He3 : 2 * e' <= d + ex - 105)
    by (unfold e'; rewrite Z.div2_div; clear Hlo; Z.div_mod_to_equations; lia).
  set (s := ex - 2 * e') in *.
  assert (Es : s = ex - 2 * e') by reflexivity. clearbody s.
  assert (Em : match s with
               | 0 => Zpos mx
               | Zpos _ => Z.shiftl (Zpos mx) s
               | Zneg _ => 0
               end = Zpos mx * 2 ^ s).
  { destruct s as [|p|p]; [change (2 ^ 0) with 1; lia| |lia].
    rewrite Z.shiftl_mul_pow2 by lia. reflexivity. }
  rewrite Em.
  assert (Hbig : 2 ^ 104 <= Zpos mx * 2 ^ s).
  { apply Z.le_trans with (2 ^ (d - 1) * 2 ^ s).
    - rewrite <- Z.pow_add_r by lia. apply Z.pow_le_mono_r; lia.
    - apply Z.mul_le_mono_nonneg_r; [apply Z.pow_nonneg; lia|exact Hlo]. }
  pose proof (Z.sqrtrem_spec (Zpos mx * 2 ^ s)) as Hsq.
  destruct (Z.sqrtrem (Zpos mx * 2 ^ s)) as [q rr].
  destruct Hsq as [Hsq Hr]; [lia|].
  assert (Hq : 2 ^ 52 <= q) by (eapply sqrt_ge_pow; eauto).
  eexists q, e', _. split; [reflexivity|].
  split; [exact Hq|]. split; [exact He1|]. split; [exact He2|].
  assert (Hp : 0 < 2 ^ (e' + 1074)) by (apply scaled_pos_pow; lia).
  assert (Ev : scaled (Zpos mx) ex * 2 ^ 1074
               = (Zpos mx * 2 ^ s) * (2 ^ (e' + 1074) * 2 ^ (e' + 1074))).
  { unfold scaled. rewrite <- !Z.mul_assoc, <- !Z.pow_add_r by lia.
    f_equal. f_equal. lia. }
  rewrite Ev, Hsq. unfold scaled.
  set (w := 2 ^ (e' + 1074)) in *.
  change (2 ^ 52) with 4503599627370496 in Hq. nia.
Qed.

Lemma SFsqrt_bounds x vx :
  Val x vx -> vx < 2 ^ 1200 ->
  exists v,
    Val (SF64sqrt x) v /\
    ((vx = 0 /\ v = 0) \/
     exists q u, 0 < u /\ 2 ^ 52 * u <= q /\
       q * q <= vx * 2 ^ 1074 < (q + u) * (q + u) /\ q - u < v <= q + u).
Proof.
  intros Hx Hlt. destruct Hx as [|mx ex Hex Hmx].
  - exists 0. split; [constructor|left; split; reflexivity].
  - unfold SF64sqrt, SFsqrt.
    destruct (SFsqrt_core mx ex Hex) as (q & e' & l & -> & Hq & He1 & He2 & Hb).
    assert (Hk : ex + 1074 < 1200) by (apply (exp_le_of_scaled mx); lia).
    assert (Hp : 0 < 2 ^ (e' + 1074)) by (apply scaled_pos_pow; lia).
    set (Q := scaled q e') in *.
    assert (HQ0 : 0 <= Q).
    { unfold Q, scaled. apply Z.mul_nonneg_nonneg; [|lia].
      change (2 ^ 52) with 4503599627370496 in Hq. lia. }
    assert (HQl : Q < 2 ^ 2000).
    { apply Z.square_lt_simpl_nonneg; [apply Z.pow_nonneg; lia|].
      apply Z.le_lt_trans with (scaled (Zpos mx) ex * 2 ^ 1074); [apply Hb|].
      apply Z.lt_trans with (2 ^ 1200 * 2 ^ 1074).
      - apply Z.mul_lt_mono_pos_r; [apply Z.pow_pos_nonneg; lia|exact Hlt].
      - rewrite <- !Z.pow_add_r by lia. apply Z.pow_lt_mono_r; lia. }
    assert (Hq0 : 0 <= q) by (change (2 ^ 52) with 4503599627370496 in Hq; lia).
    destruct (binary_round_aux_bounds q e' l Hq0 He1 ltac:(lia) HQl
                ltac:(right; left; exact Hq))
      as (v & u & HV & Hu & Hvb & Hd).
    fold Q in Hvb, Hd.
    exists v. split; [exact HV|]. right.
    assert (Hu0 : 2 ^ 52 * 2 ^ (e' + 1074) <= Q).
    { unfold Q, scaled. apply Z.mul_le_mono_nonneg_r; lia. }
    destruct Hd as [Hd|[(_ & Hd & Hd')|Hd]].
    + exists Q, u. split; [lia|]. split; [exact Hd|]. split; [|exact Hvb].
      split; [apply Hb|]. eapply Z.lt_le_trans; [apply Hb|].
      apply Z.mul_le_mono_nonneg; lia.
    + exists Q, (2 ^ (e' + 1074)). split; [lia|]. split; [exact Hu0|].
      split; [exact Hb|lia].
    + exists Q, (2 ^ (e' + 1074)). split; [lia|]. split; [exact Hu0|].
      split; [exact Hb|lia].
Qed.

Lemma Val_zero_inv x v : Val x v -> v = 0 -> x = S754_zero false.
Proof.
  intros [|m e He Hm] E; [reflexivity|].
  exfalso. pose proof (Val_exp m e He). pose proof (scaled_pos_pow e He). lia.
Qed.

(** One blending step [sqrt ((acc + c*c) / 2)] on values, with the bounds
    left as parameters: the numeric side conditions are closed and are
    discharged by computation at each use. *)
Section BlendStep.
Variables A C S H T R : Z.
Hypothesis HS : (2 ^ 52 + 1) * (A + C) <= 2 ^ 52 * S.
Hypothesis HH : S + 2 * (S / 2 ^ 53 + 1) <= 2 * H.
Hypothesis HT : 0 <= T /\ H * 2 ^ 1074 < T * T.
Hypothesis HR : (2 ^ 52 + 1) * T <= 2 ^ 52 * R.
Hypothesis Hsmall : S < 2 ^ 1200 /\ H < 2 ^ 1200.

Variables A' S' H' T' R' : Z.
Hypothesis LS : 2 ^ 52 * S' <= (2 ^ 52 - 1) * A'.
Hypothesis LH : 2 ^ 54 * H' <= (2 ^ 53 - 4) * S' /\ 2 * H' <= S' - 4.
Hypothesis LT : 0 <= T' /\ T' * T' <= H' * 2 ^ 1074.
Hypothesis LR : (2 ^ 52 + 1) * R' <= (2 ^ 52 - 1) * T'.

Lemma blend_step_bounds a c va vc :
  Val a va -> Val c vc -> va <= A -> vc <= C ->
  (va + vc = 0 \/ A' <= va + vc) ->
  exists v,
    Val (SF64sqrt (SF64div (SF64add a c) two)) v /\
    v <= R /\ (v = 0 \/ R' <= v).
Proof.
  intros Ha Hc HA HC HL.
  pose proof (Val_nonneg _ _ Ha) as Pa. pose proof (Val_nonneg _ _ Hc) as Pc.
  assert (P1200 : 2 ^ 1200 < 2 ^ 1900) by (apply Z.pow_lt_mono_r; lia).
  assert (P1900 : 2 ^ 1900 < 2 ^ 2000) by (apply Z.pow_lt_mono_r; lia).
  change (2 ^ 52) with 4503599627370496 in *.
  change (2 ^ 53) with 9007199254740992 in *.
  change (2 ^ 54) with 18014398509481984 in *.
  assert (Hsum : va + vc < 2 ^ 2000) by lia.
  destruct (SFadd_bounds a c va vc Ha Hc Hsum) as (vs & Vs & Bs).
  change (2 ^ 52) with 4503599627370496 in Bs.
  assert (Hvs : vs <= S) by lia.
  destruct (SFdiv_two_bounds _ vs Vs ltac:(lia)) as (vh & u1 & Vh & Hu1 & Cu1 & Bh & Zh).
  change (2 ^ 53) with 9007199254740992 in Cu1.
  assert (Hvh : vh <= H).
  { assert (u1 <= S / 9007199254740992 + 1); [|lia].
    destruct Cu1 as [Cu1|Cu1]; [|pose proof (Z.div_pos S 9007199254740992); lia].
    assert (u1 <= S / 9007199254740992); [|lia].
    apply Z.div_le_lower_bound; lia. }
  destruct (SFsqrt_bounds _ vh Vh ltac:(lia)) as (v & Vv & Bv).
  exists v. split; [exact Vv|].
  destruct Bv as [[Ez Ev]|(q & u & Hu & Hqu & Hqq & Hv)].
  - subst. split; [|left; reflexivity]. nia.
  - change (2 ^ 52) with 4503599627370496 in Hqu.
    assert (Hq0 : 0 <= q) by lia.
    split.
    + assert (Hq : q < T).
      { apply Z.square_lt_simpl_nonneg; [apply HT|].
        eapply Z.le_lt_trans; [apply Hqq|].
        eapply Z.le_lt_trans; [|apply HT].
        apply Z.mul_le_mono_nonneg_r; [apply Z.pow_nonneg; lia|exact Hvh]. }
      lia.
    + destruct HL as [HL|HL].
      * assert (vs = 0) by lia. subst vs.
        assert (vh = 0) by (apply Zh; reflexivity). subst vh. exfalso.
        rewrite Z.mul_0_l in Hqq. nia.
      * right.
        assert (Hvs' : S' <= vs) by lia.
        assert (Hvh' : H' <= vh) by lia.
        assert (Hq : T' < q + u).
        { apply Z.square_lt_simpl_nonneg; [lia|].
          eapply Z.le_lt_trans; [apply LT|].
          eapply Z.le_lt_trans; [|apply Hqq].
          apply Z.mul_le_mono_nonneg_r; [apply Z.pow_nonneg; lia|exact Hvh']. }
        lia.
Qed.
End BlendStep.


End Rounding.

(** * The blend stays in range *)

Module Blend.
Import B64 Rounding.

(** Closed comparisons between large integers are decided by evaluation. *)
Ltac evaluate :=
  lazymatch goal with
  | |- _ <= _ => apply Z.leb_le; vm_compute; reflexivity
  | |- _ < _ => apply Z.ltb_lt; vm_compute; reflexivity
  | |- _ /\ _ => split; evaluate
  end.

Lemma square_table : forallb square_ok bytes = true.
Proof. vm_compute. reflexivity. Qed.

Lemma byte_in_bytes c : byte_channel c -> In c bytes.
Proof.
  intros [H0 H1]. unfold bytes.
  replace c with (Z.of_nat (Z.to_nat c)) by lia.
  apply in_map, in_seq. lia.
Qed.

Lemma square_Val c :
  byte_channel c -> Val (Prim2SF (JS.number c * JS.number c)) (c * c * one).
Proof.
  intros Hc. pose proof square_table as Ht.
  rewrite forallb_forall in Ht. specialize (Ht c (byte_in_bytes c Hc)).
  unfold square_ok in Ht.
  destruct (Prim2SF (JS.number c * JS.number c)) as [[|]|[|]| |[|] m e];
    try discriminate.
  - apply Z.eqb_eq in Ht. subst c. constructor.
  - apply andb_prop in Ht. destruct Ht as [Ht E].
    apply andb_prop in Ht. destruct Ht as [He Hm].
    apply Z.eqb_eq in E. rewrite <- E.
    constructor; [apply Z.leb_le; exact He|apply Z.ltb_lt; exact Hm].
Qed.

Lemma Bounded_weaken hi hi' x : hi <= hi' -> Bounded hi x -> Bounded hi' x.
Proof. intros Hle (v & Hv & Hhi & Hlo). exists v. repeat split; auto; lia. Qed.

Lemma hi2_le_hi1 : hi2 <= hi1.
Proof. evaluate. Qed.

Lemma Bounded_zero : Bounded hi2 0%float.
Proof.
  exists 0. split; [constructor|]. split; [|left; reflexivity].
  evaluate.
Qed.

Lemma square_facts c :
  byte_channel c -> c * c * one <= 65025 * one /\ (c = 0 \/ one <= c * c * one).
Proof.
  intros [H0 H1]. assert (Hone : 0 < one) by (apply Z.pow_pos_nonneg; lia).
  assert (Hsq : c * c <= 65025) by nia.
  split; [apply Z.mul_le_mono_nonneg_r; lia|].
  destruct (Z.eq_dec c 0) as [Hz|Hnz]; [left; assumption|right].
  assert (1 <= c * c) by nia.
  rewrite <- (Z.mul_1_l one) at 1. apply Z.mul_le_mono_nonneg_r; lia.
Qed.

(** The first sample: [0 + c * c]. *)
Lemma first_sample acc c :
  Bounded 0 acc -> byte_channel c ->
  Bounded hi1 (acc + JS.number c * JS.number c)%float.
Proof.
  intros (va & Ha & Hhi & _) Hc.
  pose proof (Val_nonneg _ _ Ha) as Pa. assert (va = 0) by lia. subst va.
  pose proof (square_Val c Hc) as Hs.
  destruct (square_facts c Hc) as [Hsq Hlo].
  assert (Hone : one = 2 ^ 1074) by reflexivity.
  assert (P : 2 ^ 1074 < 2 ^ 1900) by (apply Z.pow_lt_mono_r; lia).
  assert (P' : 2 ^ 1900 < 2 ^ 2000) by (apply Z.pow_lt_mono_r; lia).
  destruct (SFadd_bounds _ _ 0 (c * c * one) Ha Hs ltac:(lia)) as (v & Hv & Hb).
  exists v. rewrite add_spec. split; [exact Hv|].
  change (2 ^ 52) with 4503599627370496 in Hb. unfold hi1.
  split; [lia|].
  destruct Hlo as [-> | Hlo]; [left; lia|right].
  assert (4 * (one / 4) <= one) by (apply Z.mul_div_le; lia). lia.
Qed.

Lemma blend_sample acc c :
  Bounded hi1 acc -> byte_channel c ->
  Bounded hi2 (PrimFloat.sqrt ((acc + JS.number c * JS.number c) / 2)).
Proof.
  intros (va & Ha & Hhi & Hlo) Hc.
  pose proof (square_Val c Hc) as Hs.
  destruct (square_facts c Hc) as [Hsq Hsl].
  pose proof (Val_nonneg _ _ Ha) as Pa.
  destruct (blend_step_bounds
              (65026 * one) (65025 * one) (130052 * one) (65027 * one)
              (255 * one + one / 64) (255 * one + one / 32)
              ltac:(evaluate) ltac:(evaluate) ltac:(evaluate) ltac:(evaluate)
              ltac:(evaluate)
              (one / 4) (one / 4 - one / 2 ^ 40) (one / 8 - one / 2 ^ 38)
              (one / 4 + one / 16 + one / 32) (one / 4 + one / 16)
              ltac:(evaluate) ltac:(evaluate) ltac:(evaluate) ltac:(evaluate)
              _ _ va (c * c * one) Ha Hs Hhi Hsq) as (v & Hv & Hup & Hdn).
  { destruct Hlo as [-> | Hlo]; destruct Hsl as [-> | Hsl]; [left; lia|right..].
    - assert (one / 4 <= one) by evaluate. lia.
    - lia.
    - assert (0 <= one) by evaluate. lia. }
  exists v. rewrite sqrt_spec, div_spec, add_spec.
  change (Prim2SF 2) with two. split; [exact Hv|]. split.
  - assert (255 * one + one / 32 <= hi2) by evaluate.
    lia.
  - destruct Hdn as [Hdn|Hdn]; [left; exact Hdn|right].
    assert (one / 4 <= one / 4 + one / 16) by evaluate.
    lia.
Qed.


Lemma blend_rest rest : forall acc,
  Bounded hi1 acc -> Forall byte_channel rest ->
  Bounded hi1 (spec_blend false acc rest) /\
  (rest <> [] -> Bounded hi2 (spec_blend false acc rest)).
Proof.
  induction rest as [|c rest IH]; intros acc Hacc Hall.
  - split; [exact Hacc|congruence].
  - inversion Hall as [|c' rest' Hc Hrest]; subst.
    pose proof (blend_sample acc c Hacc Hc) as Hstep.
    pose proof (Bounded_weaken _ _ _ hi2_le_hi1 Hstep) as Hstep'.
    destruct (IH _ Hstep' Hrest) as [IH1 IH2]. simpl spec_blend.
    split; [exact IH1|]. intros _.
    destruct rest as [|c2 rest]; [exact Hstep|apply IH2; discriminate].
Qed.

Lemma blend_bounded channel :
  Forall byte_channel channel ->
  Bounded hi1 (spec_blend true 0 channel) /\
  ((2 <= List.length channel)%nat -> Bounded hi2 (spec_blend true 0 channel)).
Proof.
  intros Hall. destruct channel as [|c rest].
  - split; [apply (Bounded_weaken _ _ _ hi2_le_hi1), Bounded_zero|simpl; lia].
  - inversion Hall as [|c' rest' Hc Hrest]; subst. simpl spec_blend.
    assert (H0 : Bounded 0 0%float) by (exists 0; split; [constructor|lia]).
    pose proof (first_sample _ c H0 Hc) as H1.
    destruct (blend_rest rest _ H1 Hrest) as [B1 B2].
    split; [exact B1|]. intros Hlen. apply B2.
    destruct rest; [simpl in Hlen; lia|discriminate].
Qed.

Lemma truncate_Val x v : Val (Prim2SF x) v -> JS.truncate x = Some (v / one).
Proof.
  unfold JS.truncate. intros H. inversion H as [E|m e He Hm E]; [reflexivity|].
  f_equal. unfold cond_Zopp, scaled, one.
  destruct (Z_le_gt_dec 0 e) as [Hp|Hn].
  - rewrite Z.shiftl_mul_pow2, Z.pow_add_r, Z.mul_assoc by lia.
    symmetry. apply Z.div_mul. apply Z.pow_nonzero; lia.
  - rewrite Z.shiftl_div_pow2 by lia.
    assert (E2 : 2 ^ 1074 = 2 ^ (- e) * 2 ^ (e + 1074))
      by (rewrite <- Z.pow_add_r by lia; f_equal; lia).
    rewrite E2. symmetry. apply Z.div_mul_cancel_r; apply Z.pow_nonzero; lia.
Qed.

Lemma plain_min_SF : Prim2SF JS.plain_min = S754_finite false 4722366482869645 (-72).
Proof. vm_compute. reflexivity. Qed.

Lemma plain_max_SF : Prim2SF JS.plain_max = S754_finite false 7629394531250000 17.
Proof. vm_compute. reflexivity. Qed.

Lemma plain_Bounded x : Bounded hi1 x -> JS.plain_decimal x = true.
Proof.
  intros (v & Hv & Hhi & Hlo). unfold JS.plain_decimal, is_zero.
  rewrite eqb_spec, leb_spec, ltb_spec, abs_spec, plain_min_SF, plain_max_SF.
  inversion Hv as [E|m e He Hm E]; [reflexivity|].
  subst v. simpl SFabs.
  assert (Hup : e + 1074 < 1091).
  { apply (exp_le_of_scaled m); [lia|lia|].
    eapply Z.le_lt_trans; [exact Hhi|]. evaluate. }
  assert (Hdn : 1019 < e + 1074).
  { destruct Hlo as [Hlo|Hlo].
    - pose proof (Val_exp m e He). pose proof (scaled_pos_pow e He). lia.
    - assert (H4 : 2 ^ 1072 <= scaled (Zpos m) e).
      { eapply Z.le_trans; [|exact Hlo]. evaluate. }
      unfold scaled in H4.
      assert (H5 : 2 ^ 1072 < 2 ^ 53 * 2 ^ (e + 1074)).
      { eapply Z.le_lt_trans; [exact H4|].
        apply Z.mul_lt_mono_pos_r; [apply scaled_pos_pow; lia|exact Hm]. }
      rewrite <- Z.pow_add_r in H5 by lia.
      apply Z.pow_lt_mono_r_iff in H5; lia. }
  unfold SFeqb, SFleb, SFltb, SFcompare.
  replace (-72 ?= e) with Lt by (symmetry; apply Z.compare_lt_iff; lia).
  replace (e ?= 17) with Lt by (symmetry; apply Z.compare_lt_iff; lia).
  reflexivity.
Qed.

Lemma parseInt_Bounded hi x :
  hi <= hi1 -> Bounded hi x ->
  exists z, JS.parseInt x = Some z /\ JS.truncate x = Some z /\ 0 <= z <= hi / one.
Proof.
  intros Hle Hb. pose proof (plain_Bounded x (Bounded_weaken _ _ _ Hle Hb)) as Hp.
  destruct Hb as (v & Hv & Hhi & _).
  exists (v / one). unfold JS.parseInt. rewrite Hp, (truncate_Val x v Hv).
  assert (Hone : 0 < one) by (apply Z.pow_pos_nonneg; lia).
  pose proof (Val_nonneg _ _ Hv).
  repeat split; [apply Z.div_pos; lia|apply Z.div_le_mono; lia].
Qed.

(** The loop of [calcAverageColor] computes the three channel reductions. *)
Lemma map_totals_spec colors : forall index t,
  totalR (map_totals colors index t)
    = spec_blend (Nat.eqb index 0) (totalR t) (map r colors) /\
  totalG (map_totals colors index t)
    = spec_blend (Nat.eqb index 0) (totalG t) (map g colors) /\
  totalB (map_totals colors index t)
    = spec_blend (Nat.eqb index 0) (totalB t) (map b colors).
Proof.
  induction colors as [|c rest IH]; intros index t; [repeat split|].
  simpl map_totals. simpl map. simpl spec_blend.
  destruct (IH (S index) (accumulate t index c)) as (-> & -> & ->).
  unfold accumulate. destruct (Nat.eqb index 0); repeat split.
Qed.

Lemma channels_bytes colors :
  Forall byte_color colors ->
  Forall byte_channel (map r colors) /\ Forall byte_channel (map g colors) /\
  Forall byte_channel (map b colors).
Proof.
  induction 1 as [|c rest (Hr & Hg & Hb) _ (IHr & IHg & IHb)]; simpl; auto.
Qed.

(** The blend of byte samples: each channel is the truncated reduction, at
    most [hi / one]. *)
Lemma averageColor_bytes hi colors :
  hi <= hi1 -> Forall byte_color colors ->
  (forall channel, Forall byte_channel channel ->
     List.length channel = List.length colors -> Bounded hi (spec_blend true 0 channel)) ->
  exists c,
    averageColor colors = Some c /\
    spec_channel (map r colors) = Some (r c) /\
    spec_channel (map g colors) = Some (g c) /\
    spec_channel (map b colors) = Some (b c) /\
    0 <= r c <= hi / one /\ 0 <= g c <= hi / one /\ 0 <= b c <= hi / one.
Proof.
  intros Hle Hall Hb. destruct (channels_bytes colors Hall) as (Hr & Hg & Hbl).
  unfold averageColor, spec_channel.
  destruct (map_totals_spec colors 0 {| totalR := 0; totalG := 0; totalB := 0 |})
    as (-> & -> & ->).
  simpl.
  destruct (parseInt_Bounded hi _ Hle (Hb _ Hr (List.length_map _ _))) as (zr & -> & -> & Br).
  destruct (parseInt_Bounded hi _ Hle (Hb _ Hg (List.length_map _ _))) as (zg & -> & -> & Bg).
  destruct (parseInt_Bounded hi _ Hle (Hb _ Hbl (List.length_map _ _))) as (zb & -> & -> & Bb).
  exists {| r := zr; g := zg; b := zb |}. simpl. repeat split; lia.
Qed.

Lemma averageColor_defined colors :
  Forall byte_color colors -> exists c, averageColor colors = Some c.
Proof.
  intros Hall.
  destruct (averageColor_bytes hi1 colors (Z.le_refl _) Hall) as (c & Hc & _).
  - intros channel Hch _. apply blend_bounded, Hch.
  - exists c. exact Hc.
Qed.

End Blend.

(** * The component: listeners, effects and the sampling loops *)

Module Component.

Lemma existsb_snoc {A} (f : A -> bool) l x :
  existsb f (l ++ [x]) = existsb f l || f x.
Proof. rewrite existsb_app. simpl. rewrite orb_false_r. reflexivity. Qed.

Lemma listener_eqb_refl l : listener_eqb l l = true.
Proof. destruct l; reflexivity. Qed.

Lemma same_listener_refl type l : same_listener type l (type, l) = true.
Proof.
  unfold same_listener. simpl. rewrite String.eqb_refl, listener_eqb_refl. reflexivity.
Qed.

(** The listener that was just added is registered. *)
Lemma listening_add type l w : listening type l (addEventListener type l w) = true.
Proof.
  unfold addEventListener. destruct (listening type l w) eqn:E; [exact E|].
  unfold listening. simpl. rewrite existsb_snoc, same_listener_refl.
  apply orb_true_r.
Qed.

(** Adding a listener never unregisters another one. *)
Lemma listening_add_mono type l type' l' w :
  listening type l w = true -> listening type l (addEventListener type' l' w) = true.
Proof.
  intros H. unfold addEventListener. destruct (listening type' l' w); [exact H|].
  unfold listening in *. simpl. rewrite existsb_snoc, H. reflexivity.
Qed.

Lemma listening_add_other type l type' l' w :
  same_listener type l (type', l') = false ->
  listening type l (addEventListener type' l' w) = listening type l w.
Proof.
  intros H. unfold addEventListener. destruct (listening type' l' w); [reflexivity|].
  unfold listening. simpl. rewrite existsb_snoc, H. apply orb_false_r.
Qed.

Lemma existsb_filter_other {A} (f p : A -> bool) l :
  (forall x, f x = true -> p x = true) ->
  existsb f (filter p l) = existsb f l.
Proof.
  intros H. induction l as [|x l IH]; [reflexivity|]. simpl.
  destruct (p x) eqn:Ep; simpl; rewrite IH; [reflexivity|].
  destruct (f x) eqn:Ef; [|reflexivity]. rewrite (H x Ef) in Ep. discriminate.
Qed.

Lemma existsb_filter_self {A} (f : A -> bool) l :
  existsb f (filter (fun x => negb (f x)) l) = false.
Proof.
  induction l as [|x l IH]; [reflexivity|]. simpl.
  destruct (f x) eqn:Ef; simpl; [exact IH|]. rewrite Ef, IH. reflexivity.
Qed.

Lemma same_listener_eq type l type' l' entry :
  same_listener type l entry = true -> same_listener type' l' entry = true ->
  type = type' /\ l = l'.
Proof.
  unfold same_listener. destruct entry as [t x]. simpl.
  intros H1 H2. apply andb_prop in H1, H2. destruct H1 as [T1 L1], H2 as [T2 L2].
  apply String.eqb_eq in T1, T2. subst.
  split; [reflexivity|]. destruct l, l', x; simpl in *; congruence.
Qed.

(** Removing a listener unregisters it... *)
Lemma listening_remove type l w :
  listening type l (removeEventListener type l w) = false.
Proof. unfold listening, removeEventListener. simpl. apply existsb_filter_self. Qed.

(** ... and only it. *)
Lemma listening_remove_other type l type' l' w :
  type <> type' \/ l <> l' ->
  listening type l (removeEventListener type' l' w) = listening type l w.
Proof.
  intros Hne. unfold listening, removeEventListener. simpl.
  apply existsb_filter_other. intros entry H.
  destruct (same_listener type' l' entry) eqn:E; [|reflexivity].
  destruct (same_listener_eq _ _ _ _ _ H E) as [-> ->]. destruct Hne; congruence.
Qed.

Lemma filter_idem {A} (p : A -> bool) l : filter p (filter p l) = filter p l.
Proof.
  induction l as [|x l IH]; [reflexivity|]. simpl.
  destruct (p x) eqn:E; simpl; [rewrite E, IH|]; auto.
Qed.

Lemma filter_comm {A} (p q : A -> bool) l : filter p (filter q l) = filter q (filter p l).
Proof.
  induction l as [|x l IH]; [reflexivity|]. simpl.
  destruct (p x) eqn:Ep, (q x) eqn:Eq; simpl; rewrite ?Ep, ?Eq, IH; reflexivity.
Qed.

Lemma call_log h w : trace (call h w) = trace w ++ called (props (this w)) h.
Proof.
  unfold call, called. destruct (supplied (props (this w)) h); simpl;
    [reflexivity|symmetry; apply app_nil_r].
Qed.

Lemma call_this h w : this (call h w) = this w.
Proof. unfold call. destruct (supplied _ h); reflexivity. Qed.

Lemma call_document h w : document (call h w) = document w.
Proof. unfold call. destruct (supplied _ h); reflexivity. Qed.

Lemma call_pending h w : pending (call h w) = pending w.
Proof. unfold call. destruct (supplied _ h); reflexivity. Qed.

Lemma listening_call type l h w : listening type l (call h w) = listening type l w.
Proof. unfold listening. rewrite call_document. reflexivity. Qed.

End Component.

(** * Teardown and the click handler, field by field *)

Module Teardown.

Lemma stopPicking_this w :
  this (stopPicking w)
  = {| props := props (this w); state_colors := state_colors (this w);
       cursorActive := cursorActive (this w);
       cursorInactive := cursorInactive (this w); picking := false |}.
Proof. unfold stopPicking. simpl. rewrite !Component.call_this. reflexivity. Qed.

Lemma stopPicking_document w :
  document (stopPicking w)
  = {| listeners :=
         filter (fun entry => negb (same_listener "keydown" HandleKeydown entry))
           (filter (fun entry => negb (same_listener "click" TargetToCanvas entry))
              (listeners (document w)));
       body_cursor := cursorInactive (this w) |}.
Proof. unfold stopPicking. simpl. rewrite !Component.call_document. reflexivity. Qed.

Lemma stopPicking_pending w : pending (stopPicking w) = pending w.
Proof. unfold stopPicking. simpl. rewrite !Component.call_pending. reflexivity. Qed.

Lemma stopPicking_trace w :
  trace (stopPicking w) = trace w ++ called (props (this w)) onPickStop.
Proof. unfold stopPicking. simpl. rewrite !Component.call_log. reflexivity. Qed.

Lemma stopPicking_unlistens w :
  listening "click" TargetToCanvas (stopPicking w) = false /\
  listening "keydown" HandleKeydown (stopPicking w) = false.
Proof.
  unfold listening. rewrite stopPicking_document. simpl. split.
  - rewrite Component.filter_comm. apply Component.existsb_filter_self.
  - apply Component.existsb_filter_self.
Qed.

Lemma targetToCanvas_props e w : props (this (targetToCanvas e w)) = props (this w).
Proof.
  unfold targetToCanvas. rewrite stopPicking_this. simpl.
  rewrite Component.call_this. reflexivity.
Qed.

Lemma targetToCanvas_trace e w :
  trace (targetToCanvas e w)
  = trace w ++ Html2canvas (target e)
            :: called (props (this w)) onPickClick ++ called (props (this w)) onPickStop.
Proof.
  unfold targetToCanvas. rewrite stopPicking_trace, Component.call_log, Component.call_this.
  simpl. rewrite <- !app_assoc. reflexivity.
Qed.

Lemma targetToCanvas_pending e w :
  pending (targetToCanvas e w)
  = pending w ++ [ {| job_offsetX := offsetX e; job_offsetY := offsetY e;
                      job_pickRadius := pickRadius (props (this w)) |} ].
Proof.
  unfold targetToCanvas. rewrite stopPicking_pending, Component.call_pending.
  reflexivity.
Qed.

End Teardown.

(** * The sampling loops *)

Module Sampling.

(** A countdown loop whose body always returns runs its body on the
    offsets in order, as soon as the fuel exceeds the number of turns. *)
Lemma for_down_countdown {A} (f : Z -> A -> A) (body : Z -> A -> option A) :
  (forall x a, body x a = Some (f x a)) ->
  forall n fuel i acc,
    (n < fuel)%nat ->
    for_down fuel i (i - Z.of_nat n) body acc
    = Some (fold_left (fun a x => f x a) (countdown i n) acc).
Proof.
  intros Hbody. induction n as [|n IH]; intros fuel i acc Hlt.
  - destruct fuel as [|fuel]; [lia|]. simpl.
    replace (i - 0) with i by lia. rewrite Z.eqb_refl. reflexivity.
  - destruct fuel as [|fuel]; [lia|]. cbn [for_down].
    replace (i =? i - Z.of_nat (S n)) with false by (symmetry; apply Z.eqb_neq; lia).
    rewrite Hbody.
    replace (i - Z.of_nat (S n)) with (i - 1 - Z.of_nat n) by lia.
    rewrite IH by lia. reflexivity.
Qed.

Lemma for_down_offsets {A} (f : Z -> A -> A) (body : Z -> A -> option A)
    fuel maxRadius minRadius acc :
  (forall x a, body x a = Some (f x a)) ->
  minRadius <= maxRadius ->
  (Z.to_nat (maxRadius - minRadius) < fuel)%nat ->
  for_down fuel maxRadius minRadius body acc
  = Some (fold_left (fun a x => f x a) (offsets maxRadius minRadius) acc).
Proof.
  intros Hbody Hle Hfuel. unfold offsets.
  rewrite <- (for_down_countdown f body Hbody _ fuel) by exact Hfuel.
  f_equal. lia.
Qed.

Lemma log_log a b w : log b (log a w) = log (a ++ b) w.
Proof. unfold log. simpl. rewrite app_assoc. reflexivity. Qed.

Lemma log_nil w : log [] w = w.
Proof. destruct w. unfold log. simpl. rewrite app_nil_r. reflexivity. Qed.

(** One turn of the inner loop visits one coordinate. *)
Lemma sample_visit canvas cx cy x y colors sofar w :
  sample canvas cx cy x y (colors ++ map (pixel canvas) sofar, log (reads sofar) w)
  = (colors ++ map (pixel canvas) (sofar ++ filter in_bitmap [(cx - x, cy - y)]),
     log (reads (sofar ++ filter in_bitmap [(cx - x, cy - y)])) w).
Proof.
  unfold sample. simpl filter. unfold in_bitmap at 1 2. simpl fst. simpl snd.
  destruct (negb (cx - x <? 0) && negb (cy - y <? 0)).
  - rewrite map_app, app_assoc. unfold reads. rewrite map_app, <- log_log.
    reflexivity.
  - rewrite app_nil_r. reflexivity.
Qed.

Lemma inner_loop canvas cx cy x ys : forall colors sofar w,
  fold_left (fun st y => sample canvas cx cy x y st) ys
    (colors ++ map (pixel canvas) sofar, log (reads sofar) w)
  = (colors ++ map (pixel canvas)
                 (sofar ++ filter in_bitmap (map (fun y => (cx - x, cy - y)) ys)),
     log (reads (sofar ++ filter in_bitmap (map (fun y => (cx - x, cy - y)) ys))) w).
Proof.
  induction ys as [|y ys IH]; intros colors sofar w.
  - simpl. rewrite app_nil_r. reflexivity.
  - simpl fold_left. rewrite sample_visit, IH, <- app_assoc.
    simpl. destruct (in_bitmap (cx - x, cy - y)); reflexivity.
Qed.

Lemma outer_loop canvas cx cy ys xs : forall sofar w,
  fold_left
    (fun st x => fold_left (fun st y => sample canvas cx cy x y st) ys st) xs
    (map (pixel canvas) sofar, log (reads sofar) w)
  = (map (pixel canvas)
       (sofar ++ filter in_bitmap
                   (flat_map (fun x => map (fun y => (cx - x, cy - y)) ys) xs)),
     log (reads (sofar ++ filter in_bitmap
                   (flat_map (fun x => map (fun y => (cx - x, cy - y)) ys) xs))) w).
Proof.
  induction xs as [|x xs IH]; intros sofar w.
  - simpl. rewrite app_nil_r. reflexivity.
  - simpl fold_left.
    pose proof (inner_loop canvas cx cy x ys [] sofar w) as Hin.
    simpl app in Hin. rewrite Hin, IH, <- app_assoc.
    simpl flat_map. rewrite filter_app. reflexivity.
Qed.

(** With enough fuel the two loops read exactly the neighbourhood, in
    order. *)
Lemma gather_neighborhood fuel canvas maxRadius minRadius cx cy w :
  minRadius <= maxRadius ->
  (Z.to_nat (maxRadius - minRadius) < fuel)%nat ->
  gather fuel canvas maxRadius minRadius cx cy w
  = Some (map (pixel canvas) (neighborhood maxRadius minRadius cx cy),
          log (reads (neighborhood maxRadius minRadius cx cy)) w).
Proof.
  intros Hle Hfuel. unfold gather.
  rewrite (for_down_offsets
             (fun x st => fold_left (fun st y => sample canvas cx cy x y st)
                            (offsets maxRadius minRadius) st)); try assumption.
  - rewrite <- (log_nil w) at 1.
    rewrite (outer_loop canvas cx cy _ _ [] w). reflexivity.
  - intros x st.
    apply (for_down_offsets (fun y st => sample canvas cx cy x y st)); auto.
Qed.

Lemma even_rem a : Z.even a = true -> Z.rem a 2 = 0.
Proof.
  intros H. apply Z.even_spec in H. destruct H as [k ->].
  rewrite Z.mul_comm. apply Z.rem_mul. lia.
Qed.

Lemma odd_rem a : Z.odd a = true -> Z.rem a 2 <> 0.
Proof.
  intros H E. pose proof (Z.quot_rem' a 2) as Hq. rewrite E in Hq.
  rewrite <- Z.negb_even in H. apply negb_true_iff in H.
  assert (Z.even a = true); [|congruence].
  apply Z.even_spec. exists (Z.quot a 2). lia.
Qed.

Lemma radii_valid pr :
  valid_spec pr ->
  radii pr = inr (spec_radii pr) /\
  snd (spec_radii pr) = - fst (spec_radii pr) - 1 /\ 0 <= fst (spec_radii pr).
Proof.
  unfold radii, spec_radii.
  intros [[Hu Ha]|(Hu & Hodd & Ha)]; rewrite Hu; simpl.
  - repeat split; lia.
  - apply odd_rem in Hodd. apply Z.eqb_neq in Hodd. rewrite Hodd. simpl.
    repeat split. apply Z.div_pos; lia.
Qed.

Lemma radii_invalid pr : invalid_spec pr -> exists message, radii pr = inl message.
Proof.
  unfold radii. intros [[Hp Hr]|[Hp He]].
  - apply String.eqb_neq in Hp, Hr. rewrite Hp, Hr. eexists; reflexivity.
  - rewrite Hp. simpl. rewrite (even_rem _ He). simpl. eexists; reflexivity.
Qed.

End Sampling.


(** * The order of the callbacks *)

Module Lifecycle.

Lemma accepts_app a : forall st b,
  accepts st (a ++ b)
  = match accepts st a with Some st' => accepts st' b | None => None end.
Proof.
  induction a as [|h a IH]; intros st b; [reflexivity|]. simpl.
  destruct (lifecycle st h); [apply IH|reflexivity].
Qed.

Lemma hooks_of_app a b : hooks_of (a ++ b) = hooks_of a ++ hooks_of b.
Proof. unfold hooks_of. apply flat_map_app. Qed.

Lemma hooks_of_called p h : hooks_of (called p h) = filter (supplied p) [h].
Proof. unfold called. simpl. destruct (supplied p h); reflexivity. Qed.

Lemma hooks_of_reads cells : hooks_of (reads cells) = [].
Proof. induction cells as [|c cells IH]; [reflexivity|exact IH]. Qed.

Lemma pickColor_this w :
  this (pickColor w)
  = {| props := props (this w); state_colors := state_colors (this w);
       cursorActive := cursorActive (this w);
       cursorInactive := cursorInactive (this w); picking := true |}.
Proof.
  unfold pickColor, addEventListener.
  destruct (listening "click" TargetToCanvas _);
    destruct (listening "keydown" HandleKeydown _); simpl;
    rewrite ?Component.call_this; reflexivity.
Qed.

Lemma pickColor_trace w :
  trace (pickColor w) = trace w ++ called (props (this w)) onPickStart.
Proof.
  unfold pickColor, addEventListener.
  destruct (listening "click" TargetToCanvas _);
    destruct (listening "keydown" HandleKeydown _); simpl;
    rewrite ?Component.call_log; reflexivity.
Qed.

Lemma pickColor_pending w : pending (pickColor w) = pending w.
Proof.
  unfold pickColor, addEventListener.
  destruct (listening "click" TargetToCanvas _);
    destruct (listening "keydown" HandleKeydown _); simpl;
    rewrite ?Component.call_pending; reflexivity.
Qed.

Lemma pickColor_listens w :
  listening "click" TargetToCanvas (pickColor w) = true /\
  listening "keydown" HandleKeydown (pickColor w) = true.
Proof.
  unfold pickColor. split.
  - apply (Component.listening_add_mono "click" TargetToCanvas "keydown" HandleKeydown).
    apply Component.listening_add.
  - apply (Component.listening_add "keydown" HandleKeydown).
Qed.

Lemma setColors_this c w :
  props (this (setColors c w)) = props (this w) /\
  picking (this (setColors c w)) = picking (this w).
Proof.
  unfold setColors. rewrite Component.call_this.
  destruct (JS.truthy _); split; reflexivity.
Qed.

Lemma setColors_document c w : document (setColors c w) = document w.
Proof.
  unfold setColors. rewrite Component.call_document.
  destruct (JS.truthy _); reflexivity.
Qed.

Lemma setColors_pending c w : pending (setColors c w) = pending w.
Proof.
  unfold setColors. rewrite Component.call_pending.
  destruct (JS.truthy _); reflexivity.
Qed.

Lemma setColors_trace c w :
  trace (setColors c w)
  = trace w ++ OnChange (encode c) :: called (props (this w)) onPickEnd.
Proof.
  unfold setColors. rewrite Component.call_log.
  destruct (JS.truthy _); simpl; rewrite <- app_assoc; reflexivity.
Qed.

(** A property kept by the body is kept by the loop. *)
Lemma for_down_invariant {A} (P : A -> Prop) (body : Z -> A -> option A) stop :
  (forall x a a', P a -> body x a = Some a' -> P a') ->
  forall fuel i acc res,
    P acc -> for_down fuel i stop body acc = Some res -> P res.
Proof.
  intros Hbody. induction fuel as [|fuel IH]; intros i acc res Hacc Hrun;
    [discriminate|].
  simpl in Hrun. destruct (i =? stop); [congruence|].
  destruct (body i acc) as [acc'|] eqn:E; [|discriminate].
  eapply IH; [|exact Hrun]. eapply Hbody; eauto.
Qed.

Lemma sample_only_reads canvas cx cy x y w st :
  only_reads w st -> only_reads w (sample canvas cx cy x y st).
Proof.
  unfold sample. destruct (negb (cx - x <? 0) && negb (cy - y <? 0)); [|auto].
  intros (Ht & Hd & Hp & Hh). repeat split; simpl; auto.
  rewrite hooks_of_app, Hh. simpl. apply app_nil_r.
Qed.

Lemma gather_only_reads fuel canvas maxRadius minRadius cx cy w res :
  gather fuel canvas maxRadius minRadius cx cy w = Some res -> only_reads w res.
Proof.
  unfold gather. apply (for_down_invariant (only_reads w)).
  - intros x a a' Ha. apply (for_down_invariant (only_reads w)); [|exact Ha].
    intros y s s' Hs E. injection E as <-. apply sample_only_reads, Hs.
  - repeat split.
Qed.

(** What a settled promise leaves: the oldest job is gone, and either
    nothing else changed for the callbacks or pick-end was invoked. *)
Lemma fulfil_effect fuel canvas w w' :
  (fulfil fuel canvas w = Returned w' \/ exists m, fulfil fuel canvas w = Threw m w') ->
  props (this w') = props (this w) /\
  picking (this w') = picking (this w) /\
  document w' = document w /\
  pending w' = tl (pending w) /\
  (hooks_of (trace w') = hooks_of (trace w) \/
   (pending w <> [] /\
    hooks_of (trace w')
    = hooks_of (trace w) ++ filter (supplied (props (this w))) [onPickEnd])).
Proof.
  unfold fulfil. destruct (pending w) as [|job rest] eqn:Ep.
  - intros [E|[m E]]; [|discriminate]. injection E as <-.
    rewrite Ep. repeat split. left. reflexivity.
  - destruct (job_pickRadius job) as [pr|].
    + unfold extractColors. simpl props.
      destruct (pickRadius (props (this w))) as [pr'|].
      * destruct (radii pr') as [message|[maxRadius minRadius]].
        -- intros [E|[m E]]; [discriminate|]. injection E as _ <-.
           repeat split. left. reflexivity.
        -- destruct (gather fuel canvas maxRadius minRadius _ _ _)
             as [[colors w2]|] eqn:Eg.
           ++ apply gather_only_reads in Eg. destruct Eg as (Ht & Hd & Hp & Hh).
              simpl in Ht, Hd, Hp, Hh. unfold calcAverageColor.
              destruct (averageColor colors) as [c|].
              ** intros [E|[m E]]; [|discriminate]. injection E as <-.
                 destruct (setColors_this c w2) as [P1 P2].
                 rewrite P1, P2, setColors_document, setColors_pending,
                   setColors_trace, Ht, Hd, Hp.
                 repeat split. right. split; [discriminate|].
                 rewrite hooks_of_app, Hh. simpl hooks_of at 2.
                 rewrite hooks_of_called. reflexivity.
              ** intros [E|[m E]]; discriminate.
           ++ intros [E|[m E]]; discriminate.
      * intros [E|[m E]]; [discriminate|]. injection E as _ <-.
        repeat split. left. reflexivity.
    + intros [E|[m E]]; [|discriminate]. injection E as <-.
      unfold extractColor.
      match goal with |- context [setColors ?c ?v] =>
        destruct (setColors_this c v) as [P1 P2];
        rewrite P1, P2, setColors_document, setColors_pending, setColors_trace
      end.
      repeat split. right. split; [discriminate|].
      rewrite hooks_of_app. simpl trace. rewrite hooks_of_app. simpl hooks_of at 3.
      simpl hooks_of at 2. rewrite app_nil_r.
      change (hooks_of (OnChange (encode (canvas (job_offsetX job) (job_offsetY job)))
                          :: called (props (this w)) onPickEnd))
        with (hooks_of (called (props (this w)) onPickEnd)).
      rewrite hooks_of_called. reflexivity.
Qed.


Lemma mount_consistent p d :
  fresh_document d -> (forall h, supplied p h = true) ->
  consistent (mount p d) Idle 0.
Proof.
  intros Hd Hs. unfold mount, componentDidMount.
  constructor.
  - intros h. rewrite Component.call_this. apply Hs.
  - rewrite Component.call_log. unfold called. simpl this. simpl props.
    rewrite Hs. reflexivity.
  - left; reflexivity.
  - rewrite Component.listening_call. apply Hd.
  - rewrite Component.listening_call. apply Hd.
  - rewrite Component.call_this. reflexivity.
  - rewrite Component.call_pending. simpl. lia.
Qed.

Lemma accepts_snoc st hs st' h st'' :
  accepts st hs = Some st' -> lifecycle st' h = Some st'' ->
  accepts st (hs ++ [h]) = Some st''.
Proof. intros H1 H2. rewrite accepts_app, H1. simpl. rewrite H2. reflexivity. Qed.

Lemma step_consistent fuel a w w' ph due :
  consistent w ph due -> step fuel a w = Some w' ->
  exists ph' due', consistent w' ph' due'.
Proof.
  intros [Hs Ha Hph Hc Hk Hp Hn] Hstep.
  destruct a as [|e|e|canvas|]; simpl in Hstep.
  - (* the control is clicked *)
    injection Hstep as <-. exists Armed, due.
    destruct (pickColor_listens w) as [Lc Lk].
    constructor; try assumption.
    + intros h. rewrite pickColor_this. apply Hs.
    + rewrite pickColor_trace, hooks_of_app, hooks_of_called. simpl filter.
      rewrite Hs. apply (accepts_snoc _ _ _ _ _ Ha).
      destruct Hph as [-> | ->]; reflexivity.
    + right; reflexivity.
    + rewrite pickColor_this. reflexivity.
    + rewrite pickColor_pending. exact Hn.
  - (* a click reaches the document *)
    rewrite Hc in Hstep. destruct Hph as [-> | ->]; simpl in Hstep;
      injection Hstep as <-.
    + exists Idle, due. constructor; auto.
    + exists Idle, (S due).
      destruct (Teardown.stopPicking_unlistens
                  (call onPickClick
                     (set_pending
                        (pending (emit (Html2canvas (target e)) w) ++
                         [ {| job_offsetX := offsetX e; job_offsetY := offsetY e;
                              job_pickRadius :=
                                pickRadius (props (this (emit (Html2canvas (target e)) w))) |} ])
                        (emit (Html2canvas (target e)) w)))) as [Lc Lk].
      constructor.
      * intros h. rewrite Teardown.targetToCanvas_props. apply Hs.
      * rewrite Teardown.targetToCanvas_trace, hooks_of_app. simpl hooks_of at 2.
        change (hooks_of (Html2canvas (target e)
                            :: called (props (this w)) onPickClick
                               ++ called (props (this w)) onPickStop))
          with (hooks_of (called (props (this w)) onPickClick
                            ++ called (props (this w)) onPickStop)).
        rewrite hooks_of_app, !hooks_of_called. simpl filter. rewrite !Hs.
        rewrite accepts_app, Ha. reflexivity.
      * left; reflexivity.
      * exact Lc.
      * exact Lk.
      * unfold targetToCanvas. rewrite Teardown.stopPicking_this. reflexivity.
      * rewrite Teardown.targetToCanvas_pending, length_app. simpl. lia.
  - (* a key is pressed *)
    rewrite Hk in Hstep. destruct Hph as [-> | ->]; simpl in Hstep;
      injection Hstep as <-.
    + exists Idle, due. constructor; auto.
    + unfold handleKeydown. destruct (key e =? "Escape")%string.
      * unfold cancelPick. rewrite Hp. simpl armed_of. cbv iota.
        exists Idle, due.
        destruct (Teardown.stopPicking_unlistens (call onPickCancel w)) as [Lc Lk].
        constructor.
        -- intros h. rewrite Teardown.stopPicking_this. simpl. rewrite Component.call_this.
           apply Hs.
        -- rewrite Teardown.stopPicking_trace, Component.call_log, Component.call_this,
             !hooks_of_app, !hooks_of_called. simpl filter. rewrite !Hs.
           rewrite <- app_assoc, accepts_app, Ha. reflexivity.
        -- left; reflexivity.
        -- exact Lc.
        -- exact Lk.
        -- rewrite Teardown.stopPicking_this. reflexivity.
        -- rewrite Teardown.stopPicking_pending, Component.call_pending. exact Hn.
      * exists Armed, due. constructor; auto.
  - (* a promise settles *)
    assert (Hf : fulfil fuel canvas w = Returned w'
                 \/ exists m, fulfil fuel canvas w = Threw m w').
    { destruct (fulfil fuel canvas w) as [v|m v| |]; simpl in Hstep;
        try discriminate; injection Hstep as <-;
        [left; reflexivity|right; exists m; reflexivity]. }
    destruct (fulfil_effect fuel canvas w w' Hf) as (P1 & P2 & P3 & P4 & P5).
    assert (Hl : forall type l, listening type l w' = listening type l w)
      by (intros; unfold listening; rewrite P3; reflexivity).
    destruct P5 as [P5|[Hne P5]].
    + exists ph, due. constructor; try assumption.
      * intros h. rewrite P1. apply Hs.
      * rewrite P5. exact Ha.
      * rewrite Hl. exact Hc.
      * rewrite Hl. exact Hk.
      * rewrite P2. exact Hp.
      * rewrite P4. destruct (pending w); simpl in *; lia.
    + destruct (pending w) as [|job rest] eqn:Ep; [congruence|].
      destruct due as [|due]; [simpl in Hn; lia|].
      exists ph, due. constructor; try assumption.
      * intros h. rewrite P1. apply Hs.
      * rewrite P5. simpl filter. rewrite Hs.
        apply (accepts_snoc _ _ _ _ _ Ha).
        destruct Hph as [-> | ->]; reflexivity.
      * rewrite Hl. exact Hc.
      * rewrite Hl. exact Hk.
      * rewrite P2. exact Hp.
      * rewrite P4. simpl in *. lia.
  - (* the component is unmounted *)
    injection Hstep as <-. exists ph, due. unfold componentWillUnmount.
    constructor; try assumption.
    + rewrite Component.listening_remove_other by (left; discriminate). exact Hc.
    + rewrite Component.listening_remove_other by (left; discriminate). exact Hk.
Qed.

Lemma run_consistent fuel actions : forall w w' ph due,
  consistent w ph due -> run fuel actions w = Some w' ->
  exists ph' due', consistent w' ph' due'.
Proof.
  induction actions as [|a rest IH]; intros w w' ph due Hc Hrun; simpl in Hrun.
  - injection Hrun as <-. eauto.
  - destruct (step fuel a w) as [w1|] eqn:E; [|discriminate].
    destruct (step_consistent _ _ _ _ _ _ Hc E) as (ph1 & due1 & Hc1).
    eapply IH; eauto.
Qed.


Lemma mount_facts p d :
  props (this (mount p d)) = p /\ pending (mount p d) = [] /\
  trace (mount p d) = called p onInit.
Proof.
  unfold mount, componentDidMount.
  rewrite Component.call_this, Component.call_pending, Component.call_log.
  repeat split.
Qed.

(** The continuation of a click on a byte canvas returns and invokes
    pick-end last. *)
Lemma continuation_returns p fuel canvas x y w :
  byte_canvas canvas -> runnable p fuel -> props (this w) = p ->
  exists w',
    match pickRadius p with
    | Some _ => extractColors fuel canvas x y w
    | None => Returned (extractColor canvas x y w)
    end = Returned w' /\
    hooks_of (trace w') = hooks_of (trace w) ++ filter (supplied p) [onPickEnd].
Proof.
  intros Hbytes Hrun Hp. unfold runnable in Hrun.
  destruct (pickRadius p) as [pr|] eqn:Epr.
  - destruct Hrun as [Hv Hfuel].
    destruct (Sampling.radii_valid pr Hv) as (Hr & Hmin & Hmax).
    unfold extractColors. rewrite Hp, Epr, Hr.
    destruct (spec_radii pr) as [maxRadius minRadius] eqn:Es.
    simpl fst in *; simpl snd in *.
    rewrite Sampling.gather_neighborhood by (try exact Hfuel; lia).
    destruct (Blend.averageColor_defined
                (map (pixel canvas) (neighborhood maxRadius minRadius x y)))
      as [c Hc].
    { apply Forall_forall. intros c Hin. apply in_map_iff in Hin.
      destruct Hin as (cell & <- & _). apply Hbytes. }
    unfold calcAverageColor. rewrite Hc. eexists. split; [reflexivity|].
    rewrite setColors_trace, hooks_of_app.
    change (trace (log (reads (neighborhood maxRadius minRadius x y)) w))
      with (trace w ++ reads (neighborhood maxRadius minRadius x y)).
    change (this (log (reads (neighborhood maxRadius minRadius x y)) w)) with (this w).
    rewrite hooks_of_app, hooks_of_reads, app_nil_r, Hp.
    change (hooks_of (OnChange (encode c) :: called p onPickEnd))
      with (hooks_of (called p onPickEnd)).
    rewrite hooks_of_called. reflexivity.
  - eexists. split; [reflexivity|]. unfold extractColor.
    rewrite setColors_trace, hooks_of_app.
    change (trace (emit (GetCanvasPixelColor x y) w))
      with (trace w ++ [GetCanvasPixelColor x y]).
    change (this (emit (GetCanvasPixelColor x y) w)) with (this w).
    rewrite hooks_of_app, Hp.
    change (hooks_of [GetCanvasPixelColor x y]) with (@nil hook).
    rewrite app_nil_r.
    change (hooks_of (OnChange (encode (canvas x y)) :: called p onPickEnd))
      with (hooks_of (called p onPickEnd)).
    rewrite hooks_of_called. reflexivity.
Qed.

Lemma run_pick fuel e canvas w :
  run fuel [Press; Click e; Fulfil canvas] w
  = settled (fulfil fuel canvas (targetToCanvas e (pickColor w))).
Proof.
  cbn [run step]. destruct (pickColor_listens w) as [Lc _]. rewrite Lc.
  destruct (settled (fulfil fuel canvas (targetToCanvas e (pickColor w))));
    reflexivity.
Qed.

Lemma fulfil_single fuel canvas w x y pr :
  pending w = [ {| job_offsetX := x; job_offsetY := y; job_pickRadius := pr |} ] ->
  fulfil fuel canvas w
  = match pr with
    | Some _ => extractColors fuel canvas x y (set_pending [] w)
    | None => Returned (extractColor canvas x y (set_pending [] w))
    end.
Proof. intros E. unfold fulfil. rewrite E. reflexivity. Qed.

Lemma full_pick p d e canvas fuel :
  byte_canvas canvas -> runnable p fuel ->
  exists w,
    run fuel [Press; Click e; Fulfil canvas] (mount p d) = Some w /\
    hooks_of (trace w)
    = filter (supplied p) [onInit; onPickStart; onPickClick; onPickStop; onPickEnd].
Proof.
  intros Hbytes Hrun. rewrite run_pick.
  destruct (mount_facts p d) as (M1 & M2 & M3).
  assert (P1 : props (this (pickColor (mount p d))) = p)
    by (rewrite pickColor_this; exact M1).
  assert (P2 : props (this (targetToCanvas e (pickColor (mount p d)))) = p)
    by (rewrite Teardown.targetToCanvas_props; exact P1).
  assert (Hpend : pending (targetToCanvas e (pickColor (mount p d)))
                  = [ {| job_offsetX := offsetX e; job_offsetY := offsetY e;
                         job_pickRadius := pickRadius p |} ])
    by (rewrite Teardown.targetToCanvas_pending, pickColor_pending, M2, P1; reflexivity).
  assert (Htr : hooks_of (trace (targetToCanvas e (pickColor (mount p d))))
                = filter (supplied p) [onInit; onPickStart; onPickClick; onPickStop]).
  { rewrite Teardown.targetToCanvas_trace, pickColor_trace, P1, M1, M3.
    rewrite !hooks_of_app.
    change (hooks_of (Html2canvas (target e)
                        :: called p onPickClick ++ called p onPickStop))
      with (hooks_of (called p onPickClick ++ called p onPickStop)).
    rewrite hooks_of_app, !hooks_of_called, <- !filter_app. reflexivity. }
  revert P2 Hpend Htr.
  generalize (targetToCanvas e (pickColor (mount p d))). intros w2 P2 Hpend Htr.
  rewrite (fulfil_single _ _ _ _ _ _ Hpend).
  assert (P3 : props (this (set_pending [] w2)) = p) by exact P2.
  assert (Htr3 : hooks_of (trace (set_pending [] w2))
                 = filter (supplied p) [onInit; onPickStart; onPickClick; onPickStop])
    by exact Htr.
  revert P3 Htr3. generalize (set_pending [] w2). intros w3 P3 Htr3.
  destruct (continuation_returns p fuel canvas (offsetX e) (offsetY e) w3
              Hbytes Hrun P3) as (w' & Hret & Hhooks).
  exists w'. rewrite Hret. split; [reflexivity|].
  rewrite Hhooks, Htr3, <- filter_app. reflexivity.
Qed.

End Lifecycle.


(** * Closed forms of the blend *)

Module Closed.
Import B64 Rounding Tables.

Lemma single_table : forallb single_ok bytes = true.
Proof. vm_compute. reflexivity. Qed.

Lemma pair_table : forallb (fun a => forallb (pair_ok a) bytes) bytes = true.
Proof. vm_compute. reflexivity. Qed.

Lemma step_table : forallb step_ok bytes = true.
Proof. vm_compute. reflexivity. Qed.

End Closed.

Module ClosedForms.
Import B64 Rounding Tables.

Lemma in_table (f : Z -> bool) c :
  forallb f bytes = true -> byte_channel c -> f c = true.
Proof.
  intros Ht Hc. rewrite forallb_forall in Ht. apply Ht, Blend.byte_in_bytes, Hc.
Qed.

Lemma single_channel c :
  byte_channel c -> JS.parseInt (spec_blend true 0 [c]) = Some (c * c).
Proof.
  intros Hc. pose proof (in_table _ c Closed.single_table Hc) as H0.
  unfold single_ok in H0.
  destruct (JS.parseInt (spec_blend true 0 [c])) as [z|]; [|discriminate].
  apply Z.eqb_eq in H0. congruence.
Qed.

Lemma pair_channel a b :
  byte_channel a -> byte_channel b ->
  JS.parseInt (spec_blend true 0 [a; b]) = Some (rms a b).
Proof.
  intros Ha Hb. pose proof (in_table _ a Closed.pair_table Ha) as H0.
  cbv beta in H0. pose proof (in_table _ b H0 Hb) as H1.
  unfold pair_ok in H1.
  destruct (JS.parseInt (spec_blend true 0 [a; b])) as [z|]; [|discriminate].
  apply Z.eqb_eq in H1. congruence.
Qed.

(** The last sample is blended into what the samples before it left. *)
Lemma spec_blend_last c rest : forall first acc,
  rest <> [] ->
  spec_blend first acc (rest ++ [c])
  = PrimFloat.sqrt ((spec_blend first acc rest + JS.number c * JS.number c) / 2).
Proof.
  induction rest as [|v rest IH]; intros first acc Hne; [congruence|].
  destruct rest as [|v' rest].
  - reflexivity.
  - change (spec_blend first acc ((v :: v' :: rest) ++ [c]))
      with (spec_blend false
              (if first then (acc + JS.number v * JS.number v)%float
               else PrimFloat.sqrt ((acc + JS.number v * JS.number v) / 2))
              ((v' :: rest) ++ [c])).
    rewrite IH by discriminate. reflexivity.
Qed.

(** The blending step once more, for a sum that is not zero: the result
    is then bounded away from zero as well. *)
Section BlendRange.
Variables A C S H T R : Z.
Hypothesis HS : (2 ^ 52 + 1) * (A + C) <= 2 ^ 52 * S.
Hypothesis HH : S + 2 * (S / 2 ^ 53 + 1) <= 2 * H.
Hypothesis HT : 0 <= T /\ H * 2 ^ 1074 < T * T.
Hypothesis HR : (2 ^ 52 + 1) * T <= 2 ^ 52 * R.
Hypothesis Hsmall : S < 2 ^ 1200 /\ H < 2 ^ 1200.

Variables A' S' H' T' R' : Z.
Hypothesis LS : 2 ^ 52 * S' <= (2 ^ 52 - 1) * A'.
Hypothesis LH : 2 ^ 54 * H' <= (2 ^ 53 - 4) * S' /\ 2 * H' <= S' - 4.
Hypothesis LT : 0 <= T' /\ T' * T' <= H' * 2 ^ 1074.
Hypothesis LR : (2 ^ 52 + 1) * R' <= (2 ^ 52 - 1) * T'.
Hypothesis LP : 0 < H'.

Lemma blend_step_range a c va vc :
  Val a va -> Val c vc -> va <= A -> vc <= C -> A' <= va + vc ->
  exists v, Val (SF64sqrt (SF64div (SF64add a c) two)) v /\ R' <= v <= R.
Proof.
  intros Ha Hc HA HC HL.
  pose proof (Val_nonneg _ _ Ha) as Pa. pose proof (Val_nonneg _ _ Hc) as Pc.
  assert (P1200 : 2 ^ 1200 < 2 ^ 1900) by (apply Z.pow_lt_mono_r; lia).
  assert (P1900 : 2 ^ 1900 < 2 ^ 2000) by (apply Z.pow_lt_mono_r; lia).
  change (2 ^ 52) with 4503599627370496 in *.
  change (2 ^ 53) with 9007199254740992 in *.
  change (2 ^ 54) with 18014398509481984 in *.
  assert (Hsum : va + vc < 2 ^ 2000) by lia.
  destruct (SFadd_bounds a c va vc Ha Hc Hsum) as (vs & Vs & Bs).
  change (2 ^ 52) with 4503599627370496 in Bs.
  assert (Hvs : S' <= vs <= S) by lia.
  destruct (SFdiv_two_bounds _ vs Vs ltac:(lia)) as (vh & u1 & Vh & Hu1 & Cu1 & Bh & _).
  change (2 ^ 53) with 9007199254740992 in Cu1.
  assert (Hvh : H' <= vh <= H).
  { split; [lia|].
    assert (u1 <= S / 9007199254740992 + 1); [|lia].
    destruct Cu1 as [Cu1|Cu1]; [|pose proof (Z.div_pos S 9007199254740992); lia].
    assert (u1 <= S / 9007199254740992); [|lia].
    apply Z.div_le_lower_bound; lia. }
  destruct (SFsqrt_bounds _ vh Vh ltac:(lia)) as (v & Vv & Bv).
  exists v. split; [exact Vv|].
  destruct Bv as [[Ez Ev]|(q & u & Hu & Hqu & Hqq & Hv)]; [lia|].
  change (2 ^ 52) with 4503599627370496 in Hqu.
  assert (Hq0 : 0 <= q) by lia.
  assert (Hq : q < T).
  { apply Z.square_lt_simpl_nonneg; [apply HT|].
    eapply Z.le_lt_trans; [apply Hqq|].
    eapply Z.le_lt_trans; [|apply HT].
    apply Z.mul_le_mono_nonneg_r; [apply Z.pow_nonneg; lia|apply Hvh]. }
  assert (Hq' : T' < q + u).
  { apply Z.square_lt_simpl_nonneg; [lia|].
    eapply Z.le_lt_trans; [apply LT|].
    eapply Z.le_lt_trans; [|apply Hqq].
    apply Z.mul_le_mono_nonneg_r; [apply Z.pow_nonneg; lia|apply Hvh]. }
  lia.
Qed.
End BlendRange.

(** One more sample after two or more: the accumulator is driven into the
    range fixed by that sample. *)
Lemma last_sample acc c :
  Bounded hi2 acc -> byte_channel c ->
  exists v,
    Val (Prim2SF (PrimFloat.sqrt ((acc + JS.number c * JS.number c) / 2))) v /\
    last_lo c * one <= v < (last_hi c + 1) * one /\
    (v = 0 \/ one / 4 <= v) /\ last_hi c <= 180.
Proof.
  intros (va & Ha & Hhi & Hlo) Hc.
  pose proof (in_table _ c Closed.step_table Hc) as Hok.
  unfold step_ok in Hok. cbv zeta in Hok.
  repeat (apply andb_prop in Hok; destruct Hok as [Hok ?]).
  repeat match goal with
         | H : (_ <=? _) = true |- _ => apply Z.leb_le in H
         | H : (_ <? _) = true |- _ => apply Z.ltb_lt in H
         end.
  pose proof (Blend.square_Val c Hc) as Hs.
  destruct (Blend.square_facts c Hc) as [Hsq Hsl].
  pose proof (Val_nonneg _ _ Ha) as Pa.
  assert (Hone : 0 < one) by (apply Z.pow_pos_nonneg; lia).
  assert (Hq : 4 * (one / 4) <= one) by (apply Z.mul_div_le; lia).
  rewrite sqrt_spec, div_spec, add_spec. change (Prim2SF 2) with two.
  destruct Hsl as [-> | Hsl].
  - (* the sample is 0 *)
    destruct (blend_step_bounds hi2 (0 * 0 * one) (S 0) (H 0) (T 0) (R 0)
                ltac:(assumption) ltac:(assumption) ltac:(split; assumption)
                ltac:(assumption) ltac:(split; assumption)
                (A' 0) (S' 0) (H' 0) (T' 0) (R' 0)
                ltac:(assumption) ltac:(split; assumption) ltac:(split; assumption)
                ltac:(assumption)
                _ _ va (0 * 0 * one) Ha Hs Hhi (Z.le_refl _)) as (v & Hv & Hup & Hdn).
    { change (A' 0) with (one / 4).
      destruct Hlo as [-> | Hlo]; [left; reflexivity|right; lia]. }
    exists v. split; [exact Hv|]. pose proof (Val_nonneg _ _ Hv).
    change (last_lo 0) with 0 in *. split; [lia|]. split; [|assumption].
    destruct Hdn as [Hdn|Hdn]; [left; exact Hdn|right; lia].
  - assert (Hnz : (c =? 0) = false).
    { apply Z.eqb_neq. intros ->. simpl in Hsl. lia. }
    destruct (blend_step_range hi2 (c * c * one) (S c) (H c) (T c) (R c)
                ltac:(assumption) ltac:(assumption) ltac:(split; assumption)
                ltac:(assumption) ltac:(split; assumption)
                (A' c) (S' c) (H' c) (T' c) (R' c)
                ltac:(assumption) ltac:(split; assumption) ltac:(split; assumption)
                ltac:(assumption) ltac:(assumption)
                _ _ va (c * c * one) Ha Hs Hhi (Z.le_refl _)) as (v & Hv & Hdn & Hup).
    { unfold A'. rewrite Hnz. lia. }
    exists v. split; [exact Hv|]. split; [lia|]. split; [right; lia|assumption].
Qed.

Lemma last_channel rest c :
  (2 <= List.length rest)%nat -> Forall byte_channel rest -> byte_channel c ->
  exists z,
    JS.parseInt (spec_blend true 0 (rest ++ [c])) = Some z /\
    last_lo c <= z <= last_hi c /\ z <= 180.
Proof.
  intros Hlen Hrest Hc.
  destruct (Blend.blend_bounded rest Hrest) as [_ Hb]. specialize (Hb Hlen).
  rewrite spec_blend_last by (destruct rest; [simpl in Hlen; lia|discriminate]).
  destruct (last_sample _ c Hb Hc) as (v & Hv & [Hlo Hhi] & Hz & H180).
  assert (Hone : 0 < one) by (apply Z.pow_pos_nonneg; lia).
  assert (Hp : JS.plain_decimal
                 (PrimFloat.sqrt ((spec_blend true 0 rest + JS.number c * JS.number c) / 2))
               = true).
  { apply Blend.plain_Bounded. exists v. split; [exact Hv|]. split; [|exact Hz].
    unfold hi1. nia. }
  exists (v / one). unfold JS.parseInt. rewrite Hp, (Blend.truncate_Val _ v Hv).
  split; [reflexivity|].
  assert (last_lo c <= v / one) by (apply Z.div_le_lower_bound; lia).
  assert (v / one < last_hi c + 1) by (apply Z.div_lt_upper_bound; lia).
  lia.
Qed.

End ClosedForms.

(** * The cells of a neighbourhood *)

Module Cells.

Lemma countdown_In n : forall start x,
  In x (countdown start n) <-> start - Z.of_nat n < x <= start.
Proof.
  induction n as [|n IH]; intros start x.
  - simpl. lia.
  - cbn [countdown In]. rewrite IH. lia.
Qed.

Lemma countdown_length n : forall start, List.length (countdown start n) = n.
Proof. induction n as [|n IH]; intros start; simpl; [|rewrite IH]; reflexivity. Qed.

Lemma countdown_NoDup n : forall start, NoDup (countdown start n).
Proof.
  induction n as [|n IH]; intros start; simpl; constructor; [|apply IH].
  rewrite countdown_In. lia.
Qed.

Lemma offsets_In maxRadius minRadius x :
  minRadius <= maxRadius ->
  (In x (offsets maxRadius minRadius) <-> minRadius < x <= maxRadius).
Proof. intros H. unfold offsets. rewrite countdown_In. lia. Qed.

Lemma grid_In cx cy xs ys a b :
  In (a, b) (flat_map (fun x => map (fun y => (cx - x, cy - y)) ys) xs)
  <-> In (cx - a) xs /\ In (cy - b) ys.
Proof.
  rewrite in_flat_map. split.
  - intros (x & Hx & Hin). apply in_map_iff in Hin. destruct Hin as (y & E & Hy).
    injection E as <- <-. replace (cx - (cx - x)) with x by lia.
    replace (cy - (cy - y)) with y by lia. auto.
  - intros [Hx Hy]. exists (cx - a). split; [exact Hx|].
    apply in_map_iff. exists (cy - b). split; [f_equal; lia|exact Hy].
Qed.

Lemma grid_length cx cy ys xs :
  List.length (flat_map (fun x => map (fun y => (cx - x, cy - y)) ys) xs)
  = (List.length xs * List.length ys)%nat.
Proof.
  induction xs as [|x xs IH]; [reflexivity|]. simpl.
  rewrite length_app, length_map, IH. reflexivity.
Qed.

Lemma grid_NoDup cx cy ys xs :
  NoDup xs -> NoDup ys ->
  NoDup (flat_map (fun x => map (fun y => (cx - x, cy - y)) ys) xs).
Proof.
  intros Hxs Hys. induction Hxs as [|x xs Hnotin Hxs IH]; [constructor|].
  simpl. apply NoDup_app.
  - clear IH. induction Hys as [|y ys Hy Hys IHy]; simpl; constructor; [|exact IHy].
    intros H. apply in_map_iff in H. destruct H as (y' & E & Hy').
    injection E as E. replace y' with y in Hy' by lia. contradiction.
  - exact IH.
  - intros [a b] H1 H2. apply in_map_iff in H1. destruct H1 as (y & E & _).
    injection E as <- <-. apply grid_In in H2. destruct H2 as [H2 _].
    replace (cx - (cx - x)) with x in H2 by lia. contradiction.
Qed.

Lemma filter_all {A} (p : A -> bool) l :
  (forall x, In x l -> p x = true) -> filter p l = l.
Proof.
  induction l as [|x l IH]; intros H; [reflexivity|]. simpl.
  rewrite (H x (or_introl eq_refl)), IH; [reflexivity|].
  intros y Hy. apply H. right. exact Hy.
Qed.

Lemma filter_none {A} (p : A -> bool) l :
  (forall x, In x l -> p x = false) -> filter p l = [].
Proof.
  induction l as [|x l IH]; intros H; [reflexivity|]. simpl.
  rewrite (H x (or_introl eq_refl)), IH; [reflexivity|].
  intros y Hy. apply H. right. exact Hy.
Qed.

Lemma in_bitmap_spec a b : in_bitmap (a, b) = true <-> 0 <= a /\ 0 <= b.
Proof.
  unfold in_bitmap. simpl. rewrite andb_true_iff, !negb_true_iff, !Z.ltb_ge.
  reflexivity.
Qed.

(** A loop that starts below its stop value never reaches it. *)
Lemma for_down_below {A} (body : Z -> A -> option A) stop fuel : forall i acc,
  i < stop -> for_down fuel i stop body acc = None.
Proof.
  induction fuel as [|fuel IH]; intros i acc Hlt; [reflexivity|]. simpl.
  replace (i =? stop) with false by (symmetry; apply Z.eqb_neq; lia).
  destruct (body i acc); [apply IH; lia|reflexivity].
Qed.

Lemma neighborhood_In maxRadius cx cy a b :
  0 <= maxRadius ->
  (In (a, b) (neighborhood maxRadius (- maxRadius - 1) cx cy) <->
   0 <= a /\ 0 <= b /\
   cx - maxRadius <= a <= cx + maxRadius /\ cy - maxRadius <= b <= cy + maxRadius).
Proof.
  intros H. unfold neighborhood.
  rewrite filter_In, grid_In, !offsets_In, in_bitmap_spec by lia. lia.
Qed.

Lemma neighborhood_NoDup maxRadius minRadius cx cy :
  NoDup (neighborhood maxRadius minRadius cx cy).
Proof. apply NoDup_filter, grid_NoDup; apply countdown_NoDup. Qed.

Lemma neighborhood_length maxRadius cx cy :
  0 <= maxRadius -> maxRadius <= cx -> maxRadius <= cy ->
  Z.of_nat (List.length (neighborhood maxRadius (- maxRadius - 1) cx cy))
  = (2 * maxRadius + 1) * (2 * maxRadius + 1).
Proof.
  intros H Hcx Hcy. unfold neighborhood. rewrite filter_all.
  - rewrite grid_length. unfold offsets. rewrite countdown_length.
    rewrite Nat2Z.inj_mul, Z2Nat.id by lia.
    replace (maxRadius - (- maxRadius - 1)) with (2 * maxRadius + 1) by lia.
    reflexivity.
  - intros [a b] Hin. apply grid_In in Hin. rewrite !offsets_In in Hin by lia.
    apply in_bitmap_spec. lia.
Qed.

Lemma neighborhood_outside maxRadius cx cy :
  0 <= maxRadius -> cx + maxRadius < 0 \/ cy + maxRadius < 0 ->
  neighborhood maxRadius (- maxRadius - 1) cx cy = [].
Proof.
  intros H Hout. unfold neighborhood. apply filter_none. intros [a b] Hin.
  apply grid_In in Hin. rewrite !offsets_In in Hin by lia.
  apply not_true_is_false. rewrite in_bitmap_spec. lia.
Qed.

Lemma reads_In cells a b :
  In (GetCanvasPixelColor a b) (reads cells) <-> In (a, b) cells.
Proof.
  unfold reads. rewrite in_map_iff. split.
  - intros ([x y] & E & Hin). injection E as <- <-. exact Hin.
  - intros Hin. exists (a, b). split; [reflexivity|exact Hin].
Qed.

Lemma reads_NoDup cells : NoDup cells -> NoDup (reads cells).
Proof.
  intros H. induction H as [|[x y] cells Hnotin Hnodup IH]; [constructor|].
  cbn [reads map fst snd]. constructor; [|exact IH].
  change (~ In (GetCanvasPixelColor x y) (reads cells)). rewrite reads_In. exact Hnotin.
Qed.

End Cells.

(** * Sessions: what every run preserves *)

Module Session.

Lemma fresh_empty d : fresh_document d -> listeners d = [].
Proof.
  intros H. destruct (listeners d) as [|[type l] rest] eqn:E; [reflexivity|].
  specialize (H type l). rewrite E in H. simpl in H.
  rewrite Component.same_listener_refl in H. discriminate.
Qed.

Lemma filter_unlistened type l w :
  listening type l w = false ->
  filter (fun entry => negb (same_listener type l entry)) (listeners (document w))
  = listeners (document w).
Proof.
  unfold listening. induction (listeners (document w)) as [|x ls IH]; [reflexivity|].
  simpl. destruct (same_listener type l x); [discriminate|]. simpl.
  intros H. rewrite IH by exact H. reflexivity.
Qed.

Lemma count_app f a b : count f (a ++ b) = (count f a + count f b)%nat.
Proof. unfold count. rewrite filter_app, length_app. reflexivity. Qed.

Lemma count_called f p h : f (Called h) = false -> count f (called p h) = 0%nat.
Proof. intros H. unfold called, count. destruct (supplied p h); simpl; [rewrite H|]; reflexivity. Qed.

Lemma count_reads f cells :
  (forall x y, f (GetCanvasPixelColor x y) = false) -> count f (reads cells) = 0%nat.
Proof.
  intros H. unfold count, reads. induction cells as [|c cells IH]; [reflexivity|].
  simpl. rewrite H. exact IH.
Qed.

Lemma emit_log e w : emit e w = log [e] w.
Proof. reflexivity. Qed.

(** The sampling loops leave the world they got with pixel reads added. *)
Lemma sample_log canvas cx cy x y w st :
  (exists cells, snd st = log (reads cells) w) ->
  exists cells, snd (sample canvas cx cy x y st) = log (reads cells) w.
Proof.
  intros [cells E]. unfold sample.
  destruct (negb (cx - x <? 0) && negb (cy - y <? 0)); [|exists cells; exact E].
  exists (cells ++ [(cx - x, cy - y)]). cbn [snd]. rewrite E, emit_log, Sampling.log_log.
  unfold reads. rewrite map_app. reflexivity.
Qed.

Lemma gather_log fuel canvas maxRadius minRadius cx cy w res :
  gather fuel canvas maxRadius minRadius cx cy w = Some res ->
  exists cells, snd res = log (reads cells) w.
Proof.
  unfold gather. intros H.
  refine (Lifecycle.for_down_invariant
            (fun st => exists cells, snd st = log (reads cells) w) _ _ _ _ _ _ _ _ H).
  - intros x a a' Pa Ha.
    refine (Lifecycle.for_down_invariant
              (fun st => exists cells, snd st = log (reads cells) w) _ _ _ _ _ _ _ Pa Ha).
    intros y st st' Pst Hst. injection Hst as <-. apply sample_log. exact Pst.
  - exists []. symmetry. apply Sampling.log_nil.
Qed.

Lemma radii_refused pr message : radii pr = inl message -> invalid_spec pr.
Proof.
  unfold radii, invalid_spec.
  destruct (unit_ pr =? "radius")%string eqn:Er; [discriminate|].
  destruct (unit_ pr =? "pixel")%string eqn:Ep.
  - destruct (Z.rem (amount pr) 2 =? 0) eqn:Erem; [|discriminate]. intros _.
    right. split; [apply String.eqb_eq; exact Ep|].
    apply Z.eqb_eq in Erem. destruct (Z.even (amount pr)) eqn:Ev; [reflexivity|].
    exfalso. apply (Sampling.odd_rem (amount pr)); [|exact Erem].
    rewrite <- Z.negb_even, Ev. reflexivity.
  - intros _. left. split; apply String.eqb_neq; assumption.
Qed.

(** A neighbourhood extraction that ends either throws before anything
    else, the spec being absent or invalid, or reads pixels and reports
    one colour. *)
Lemma extractColors_settled fuel canvas x y w w' :
  settled (extractColors fuel canvas x y w) = Some w' ->
  (w' = w /\ forall pr, pickRadius (props (this w)) = Some pr -> invalid_spec pr) \/
  (exists cells c, w' = setColors c (log (reads cells) w)).
Proof.
  unfold extractColors.
  destruct (pickRadius (props (this w))) as [pr|] eqn:Epr.
  - destruct (radii pr) as [message|[maxRadius minRadius]] eqn:Er.
    + simpl. intros E. injection E as <-. left. split; [reflexivity|].
      intros pr' E'. injection E' as <-. exact (radii_refused _ _ Er).
    + destruct (gather fuel canvas maxRadius minRadius x y w) as [[colors w1]|] eqn:Eg;
        [|discriminate].
      destruct (gather_log _ _ _ _ _ _ _ _ Eg) as [cells Ecells]. cbn [snd] in Ecells.
      unfold calcAverageColor. destruct (averageColor colors) as [c|]; [|discriminate].
      simpl. intros E. injection E as <-. right. exists cells, c. rewrite Ecells.
      reflexivity.
  - simpl. intros E. injection E as <-. left. split; [reflexivity|discriminate].
Qed.

Lemma fulfil_settled fuel canvas w w' :
  settled (fulfil fuel canvas w) = Some w' ->
  (pending w = [] /\ w' = w) \/
  (exists job rest,
     pending w = job :: rest /\
     ((w' = set_pending rest w /\ job_pickRadius job <> None /\
       forall pr, pickRadius (props (this w)) = Some pr -> invalid_spec pr) \/
      exists cells c, w' = setColors c (log (reads cells) (set_pending rest w)))).
Proof.
  unfold fulfil. destruct (pending w) as [|job rest] eqn:Ep.
  - simpl. intros E. injection E as <-. left. split; reflexivity.
  - intros H. right. exists job, rest. split; [reflexivity|].
    destruct (job_pickRadius job) as [pr|] eqn:Ej.
    + apply extractColors_settled in H. destruct H as [[-> Hinv]|H].
      * left. split; [reflexivity|]. split; [discriminate|exact Hinv].
      * right. exact H.
    + simpl in H. injection H as <-. right.
      exists [(job_offsetX job, job_offsetY job)], (canvas (job_offsetX job) (job_offsetY job)).
      reflexivity.
Qed.

Lemma setColors_cursors c w :
  cursorActive (this (setColors c w)) = cursorActive (this w) /\
  cursorInactive (this (setColors c w)) = cursorInactive (this w).
Proof.
  unfold setColors. rewrite !Component.call_this.
  destruct (JS.truthy (passThrough (props (this w)))); split; reflexivity.
Qed.

Lemma setColors_state c w :
  state_colors (this (setColors c w))
  = if JS.truthy (passThrough (props (this w))) then encode c
    else state_colors (this w).
Proof.
  unfold setColors. rewrite !Component.call_this.
  destruct (JS.truthy (passThrough (props (this w)))); reflexivity.
Qed.

Lemma pickColor_document w :
  body_cursor (document (pickColor w)) = cursorActive (this w) /\
  (listeners (document w) = [] \/ listeners (document w) = armed_listeners ->
   listeners (document (pickColor w)) = armed_listeners) /\
  (listening "click" TargetToCanvas w = false ->
   listening "keydown" HandleKeydown w = false ->
   listeners (document (pickColor w)) = listeners (document w) ++ armed_listeners).
Proof.
  destruct w as [t [ls cur] pend tr]. unfold pickColor, call, listening. cbn [this document].
  destruct (supplied (props t) onPickStart); cbn -[existsb same_listener].
  all: unfold addEventListener, listening; cbn -[existsb same_listener].
  all: split; [|split].
  all: try (intros [->| ->]; reflexivity).
  all: try (intros Hc Hk; rewrite Hc; cbn -[existsb same_listener];
            rewrite Component.existsb_snoc, Hk; cbn; rewrite <- app_assoc; reflexivity).
  all: destruct (existsb (same_listener "click" TargetToCanvas) ls);
    cbn -[existsb same_listener];
    match goal with
    | |- context [existsb ?f ?l] => destruct (existsb f l)
    end; reflexivity.
Qed.

Lemma targetToCanvas_this e w :
  this (targetToCanvas e w)
  = {| props := props (this w); state_colors := state_colors (this w);
       cursorActive := cursorActive (this w);
       cursorInactive := cursorInactive (this w); picking := false |}.
Proof.
  unfold targetToCanvas. rewrite Teardown.stopPicking_this, Component.call_this.
  reflexivity.
Qed.

Lemma targetToCanvas_document e w :
  document (targetToCanvas e w)
  = {| listeners :=
         filter (fun entry => negb (same_listener "keydown" HandleKeydown entry))
           (filter (fun entry => negb (same_listener "click" TargetToCanvas entry))
              (listeners (document w)));
       body_cursor := cursorInactive (this w) |}.
Proof.
  unfold targetToCanvas.
  rewrite Teardown.stopPicking_document, Component.call_document, Component.call_this.
  reflexivity.
Qed.

Lemma listening_session p cursor n w :
  session p cursor n w ->
  listening "click" TargetToCanvas w = picking (this w) /\
  listening "keydown" HandleKeydown w = picking (this w).
Proof.
  intros Hs. unfold listening. rewrite (ss_listeners _ _ _ _ Hs).
  destruct (picking (this w)); split; reflexivity.
Qed.

Lemma unmount_session p cursor n w :
  session p cursor n w -> componentWillUnmount w = w.
Proof.
  intros Hs. pose proof (ss_listeners _ _ _ _ Hs) as L.
  destruct w as [t [ls cur] pend tr]. cbn [this document listeners] in L.
  unfold componentWillUnmount, removeEventListener, set_document.
  cbn [this document listeners body_cursor pending trace]. rewrite L.
  destruct (picking t); reflexivity.
Qed.

Lemma mount_session p d :
  fresh_document d -> session p (body_cursor d) 0 (mount p d).
Proof.
  intros F. apply fresh_empty in F.
  destruct (Lifecycle.mount_facts p d) as (Hp & Hpend & Htr).
  assert (Ht : this (mount p d) = new_EyeDropper p)
    by (unfold mount, componentDidMount; rewrite Component.call_this; reflexivity).
  assert (Hd : document (mount p d) = d)
    by (unfold mount, componentDidMount; rewrite Component.call_document; reflexivity).
  assert (Hc : forall f, f (Called onInit) = false -> count f (trace (mount p d)) = 0%nat)
    by (intros f Hf; rewrite Htr; apply count_called; exact Hf).
  split; unfold arming; rewrite ?Ht, ?Hd, ?Hpend, ?Hc by reflexivity;
    cbn [new_EyeDropper props cursorActive cursorInactive picking List.length];
    try reflexivity; try lia; auto.
Qed.

Lemma stop_session p cursor n w :
  session p cursor n w -> picking (this w) = true ->
  forall w0,
    this w0 = this w -> document w0 = document w -> pending w0 = pending w ->
    count is_rasterize (trace w0) = count is_rasterize (trace w) ->
    count is_report (trace w0) = count is_report (trace w) ->
    session p cursor n (stopPicking w0).
Proof.
  intros Hs Hpick w0 Ht Hd Hp Hr Ho.
  pose proof (ss_presses _ _ _ _ Hs) as Hn. unfold arming in Hn. rewrite Hpick in Hn.
  assert (Hr' : count is_rasterize (trace (stopPicking w0)) = count is_rasterize (trace w))
    by (rewrite Teardown.stopPicking_trace, count_app, count_called, Hr by reflexivity; lia).
  assert (Ho' : count is_report (trace (stopPicking w0)) = count is_report (trace w))
    by (rewrite Teardown.stopPicking_trace, count_app, count_called, Ho by reflexivity; lia).
  split; unfold arming;
    rewrite ?Hr', ?Ho', ?Teardown.stopPicking_pending, ?Hp,
            ?Teardown.stopPicking_this, ?Teardown.stopPicking_document, ?Ht, ?Hd;
    cbn [props cursorActive cursorInactive picking listeners body_cursor].
  - exact (ss_props _ _ _ _ Hs).
  - exact (ss_active _ _ _ _ Hs).
  - exact (ss_inactive _ _ _ _ Hs).
  - rewrite (ss_listeners _ _ _ _ Hs), Hpick. reflexivity.
  - right. reflexivity.
  - exact (ss_jobs _ _ _ _ Hs).
  - lia.
  - exact (ss_reports _ _ _ _ Hs).
  - exact (ss_exact _ _ _ _ Hs).
Qed.

Lemma step_session fuel a p cursor n w w' :
  session p cursor n w -> step fuel a w = Some w' ->
  session p cursor (n + presses [a]) w'.
Proof.
  intros Hs H. destruct (listening_session _ _ _ _ Hs) as [Lc Lk].
  destruct a as [|e|k|canvas|]; cbn [step] in H.
  - (* Press *)
    injection H as <-. destruct (pickColor_document w) as (Hcur & Hls & _).
    assert (Hr : forall f, f (Called onPickStart) = false ->
                 count f (trace (pickColor w)) = count f (trace w))
      by (intros f Hf; rewrite Lifecycle.pickColor_trace, count_app, count_called by exact Hf;
          lia).
    pose proof (ss_presses _ _ _ _ Hs) as Hn. unfold arming in Hn.
    split; unfold arming;
      rewrite ?Hr, ?Lifecycle.pickColor_pending, ?Lifecycle.pickColor_this by reflexivity;
      cbn [props cursorActive cursorInactive picking].
    + exact (ss_props _ _ _ _ Hs).
    + exact (ss_active _ _ _ _ Hs).
    + exact (ss_inactive _ _ _ _ Hs).
    + apply Hls. rewrite (ss_listeners _ _ _ _ Hs). destruct (picking (this w)); auto.
    + exact Hcur.
    + exact (ss_jobs _ _ _ _ Hs).
    + change (presses [Press]) with 1%nat. destruct (picking (this w)); lia.
    + exact (ss_reports _ _ _ _ Hs).
    + exact (ss_exact _ _ _ _ Hs).
  - (* Click *)
    change (presses [Click e]) with 0%nat. rewrite Nat.add_0_r.
    injection H as <-. rewrite Lc. destruct (picking (this w)) eqn:Hpick; [|exact Hs].
    pose proof (ss_presses _ _ _ _ Hs) as Hn. unfold arming in Hn. rewrite Hpick in Hn.
    assert (Hr : count is_rasterize (trace (targetToCanvas e w))
                 = S (count is_rasterize (trace w))).
    { rewrite Teardown.targetToCanvas_trace, count_app.
      change (Html2canvas (target e) :: ?l) with ([Html2canvas (target e)] ++ l).
      rewrite !count_app, !count_called by reflexivity. simpl. lia. }
    assert (Ho : count is_report (trace (targetToCanvas e w))
                 = count is_report (trace w)).
    { rewrite Teardown.targetToCanvas_trace, count_app.
      change (Html2canvas (target e) :: ?l) with ([Html2canvas (target e)] ++ l).
      rewrite !count_app, !count_called by reflexivity. simpl. lia. }
    split; unfold arming;
      rewrite ?Hr, ?Ho, ?Teardown.targetToCanvas_pending, ?targetToCanvas_this,
              ?targetToCanvas_document, ?length_app;
      cbn [props cursorActive cursorInactive picking listeners body_cursor List.length].
    + exact (ss_props _ _ _ _ Hs).
    + exact (ss_active _ _ _ _ Hs).
    + exact (ss_inactive _ _ _ _ Hs).
    + rewrite (ss_listeners _ _ _ _ Hs), Hpick. reflexivity.
    + right. reflexivity.
    + apply Forall_app. split; [exact (ss_jobs _ _ _ _ Hs)|].
      constructor; [|constructor]. cbn [job_pickRadius].
      rewrite (ss_props _ _ _ _ Hs). reflexivity.
    + lia.
    + pose proof (ss_reports _ _ _ _ Hs). lia.
    + intros Hv. pose proof (ss_exact _ _ _ _ Hs Hv). lia.
  - (* KeyDown *)
    change (presses [KeyDown k]) with 0%nat. rewrite Nat.add_0_r.
    injection H as <-. rewrite Lk. destruct (picking (this w)) eqn:Hpick; [|exact Hs].
    unfold handleKeydown. destruct (key k =? "Escape")%string; [|exact Hs].
    unfold cancelPick. rewrite Hpick.
    apply (stop_session _ _ _ _ Hs Hpick).
    + apply Component.call_this.
    + apply Component.call_document.
    + apply Component.call_pending.
    + rewrite Component.call_log, count_app, count_called by reflexivity. lia.
    + rewrite Component.call_log, count_app, count_called by reflexivity. lia.
  - (* Fulfil *)
    change (presses [Fulfil canvas]) with 0%nat. rewrite Nat.add_0_r.
    apply fulfil_settled in H.
    destruct H as [[_ ->]|(job & rest & Hp & [(-> & Hsome & Hinv)|(cells & c & ->)])];
      [exact Hs| |].
    + (* the continuation threw *)
      pose proof (ss_jobs _ _ _ _ Hs) as Hj. rewrite Hp in Hj.
      apply Forall_cons_iff in Hj. destruct Hj as [Hj Hrest].
      split; unfold arming; cbn [set_pending this document pending trace].
      * exact (ss_props _ _ _ _ Hs).
      * exact (ss_active _ _ _ _ Hs).
      * exact (ss_inactive _ _ _ _ Hs).
      * exact (ss_listeners _ _ _ _ Hs).
      * exact (ss_cursor _ _ _ _ Hs).
      * exact Hrest.
      * exact (ss_presses _ _ _ _ Hs).
      * pose proof (ss_reports _ _ _ _ Hs) as Hle. rewrite Hp in Hle. simpl in Hle. lia.
      * intros Hv. exfalso. rewrite (ss_props _ _ _ _ Hs) in Hinv.
        destruct (pickRadius p) as [pr|] eqn:Epr; [|congruence].
        exact (Hv pr eq_refl (Hinv pr eq_refl)).
    + (* the continuation reported a colour *)
      pose proof (ss_jobs _ _ _ _ Hs) as Hj. rewrite Hp in Hj.
      apply Forall_cons_iff in Hj. destruct Hj as [Hj Hrest].
      set (w1 := log (reads cells) (set_pending rest w)).
      assert (Ht1 : this w1 = this w) by reflexivity.
      assert (Hd1 : document w1 = document w) by reflexivity.
      assert (Hp1 : pending w1 = rest) by reflexivity.
      assert (Hr : count is_rasterize (trace (setColors c w1))
                   = count is_rasterize (trace w)).
      { rewrite Lifecycle.setColors_trace.
        change (trace w1) with (trace w ++ reads cells).
        change (OnChange (encode c) :: ?l) with ([OnChange (encode c)] ++ l).
        rewrite !count_app, count_reads, count_called by reflexivity. simpl. lia. }
      assert (Ho : count is_report (trace (setColors c w1))
                   = S (count is_report (trace w))).
      { rewrite Lifecycle.setColors_trace.
        change (trace w1) with (trace w ++ reads cells).
        change (OnChange (encode c) :: ?l) with ([OnChange (encode c)] ++ l).
        rewrite !count_app, count_reads, count_called by reflexivity. simpl. lia. }
      destruct (Lifecycle.setColors_this c w1) as [Hprops Hpicking].
      destruct (setColors_cursors c w1) as [Hact Hinact].
      clearbody w1.
      split; unfold arming;
        rewrite ?Hr, ?Ho, ?Hprops, ?Hpicking, ?Hact, ?Hinact,
                ?Lifecycle.setColors_document, ?Lifecycle.setColors_pending,
                ?Ht1, ?Hd1, ?Hp1.
      * exact (ss_props _ _ _ _ Hs).
      * exact (ss_active _ _ _ _ Hs).
      * exact (ss_inactive _ _ _ _ Hs).
      * exact (ss_listeners _ _ _ _ Hs).
      * exact (ss_cursor _ _ _ _ Hs).
      * exact Hrest.
      * exact (ss_presses _ _ _ _ Hs).
      * pose proof (ss_reports _ _ _ _ Hs) as Hle. rewrite Hp in Hle. simpl in Hle. lia.
      * intros Hv. pose proof (ss_exact _ _ _ _ Hs Hv) as He. rewrite Hp in He.
        simpl in He. lia.
  - (* Unmount *)
    change (presses [Unmount]) with 0%nat. rewrite Nat.add_0_r.
    injection H as <-. rewrite (unmount_session _ _ _ _ Hs). exact Hs.
Qed.

Lemma presses_cons a actions : presses (a :: actions) = (presses [a] + presses actions)%nat.
Proof. unfold presses. simpl. destruct (is_press a); reflexivity. Qed.

Lemma run_session fuel p cursor actions : forall n w w',
  session p cursor n w -> run fuel actions w = Some w' ->
  session p cursor (n + presses actions) w'.
Proof.
  induction actions as [|a actions IH]; intros n w w' Hs H.
  - injection H as <-. change (presses []) with 0%nat. rewrite Nat.add_0_r. exact Hs.
  - cbn [run] in H. destruct (step fuel a w) as [w1|] eqn:E; [|discriminate].
    rewrite presses_cons, Nat.add_assoc.
    exact (IH _ _ _ (step_session _ _ _ _ _ _ _ Hs E) H).
Qed.

Lemma reachable_session fuel p d actions w :
  fresh_document d -> run fuel actions (mount p d) = Some w ->
  session p (body_cursor d) (presses actions) w.
Proof.
  intros F H. exact (run_session _ _ _ _ _ _ _ (mount_session p d F) H).
Qed.

End Session.

(** * Main results *)

(** C1: for two or more byte samples, every channel of the colour that
    [calcAverageColor] hands to [setColors] is the reduction of the
    specification applied to that channel alone (start at 0, add the square
    of each sample, take [sqrt (acc / 2)] after every sample but the first),
    truncated toward zero; on (255,0,0), (0,0,0) it is (180, 0, 0). *)
Theorem calcAverageColor_is_running_blend :
  (forall colors, (2 <= List.length colors)%nat -> Forall byte_color colors ->
     exists c,
       (forall w, calcAverageColor colors w = Returned (setColors c w)) /\
       spec_channel (map r colors) = Some (r c) /\
       spec_channel (map g colors) = Some (g c) /\
       spec_channel (map b colors) = Some (b c)) /\
  averageColor [ {| r := 255; g := 0; b := 0 |}; {| r := 0; g := 0; b := 0 |} ]
    = Some {| r := 180; g := 0; b := 0 |}.
Proof.
  split; [|vm_compute; reflexivity].
  intros colors Hlen Hall.
  destruct (Blend.averageColor_bytes B64.hi1 colors (Z.le_refl _) Hall)
    as (c & Hc & Hr & Hg & Hb & _).
  - intros channel Hch _. apply Blend.blend_bounded, Hch.
  - exists c. split; [|auto]. intros w. unfold calcAverageColor. rewrite Hc. reflexivity.
Qed.

Lemma calcAverageColor_is_running_blend_witness :
  exists c,
    spec_channel [255; 0] = Some (r c) /\
    spec_channel [0; 0] = Some (g c) /\
    spec_channel [0; 0] = Some (b c).
Proof.
  destruct (proj1 calcAverageColor_is_running_blend
              [ {| r := 255; g := 0; b := 0 |}; {| r := 0; g := 0; b := 0 |} ])
    as (c & _ & Hc).
  - simpl. lia.
  - repeat constructor; simpl; lia.
  - exists c. exact Hc.
Defined.

(** C2: on the single sample (10, 20, 30) the code hands the squares
    (100, 400, 900) to [setColors], not the sample. *)
Theorem single_sample_is_squared :
  averageColor [ {| r := 10; g := 20; b := 30 |} ]
    = Some {| r := 100; g := 400; b := 900 |} /\
  (forall w,
     calcAverageColor [ {| r := 10; g := 20; b := 30 |} ] w
     = Returned (setColors {| r := 100; g := 400; b := 900 |} w)).
Proof.
  split; [vm_compute; reflexivity|].
  intros w. unfold calcAverageColor.
  replace (averageColor [ {| r := 10; g := 20; b := 30 |} ])
    with (Some {| r := 100; g := 400; b := 900 |}) by (vm_compute; reflexivity).
  reflexivity.
Qed.

(** C10: for two or more samples with channels in [0, 255], every channel
    of the aggregated colour is in [0, 255]. *)
Theorem averageColor_in_range colors :
  (2 <= List.length colors)%nat -> Forall byte_color colors ->
  exists c, averageColor colors = Some c /\ byte_color c.
Proof.
  intros Hlen Hall.
  destruct (Blend.averageColor_bytes B64.hi2 colors Blend.hi2_le_hi1 Hall)
    as (c & Hc & _ & _ & _ & Br & Bg & Bb).
  - intros channel Hch Hl. apply Blend.blend_bounded; [exact Hch|lia].
  - exists c. split; [exact Hc|].
    assert (E : B64.hi2 / B64.one = 255) by (vm_compute; reflexivity).
    rewrite E in *. unfold byte_color, byte_channel. lia.
Qed.

Lemma averageColor_in_range_witness :
  exists c,
    averageColor [ {| r := 255; g := 255; b := 255 |}; {| r := 255; g := 0; b := 7 |} ]
      = Some c /\ byte_color c.
Proof.
  apply averageColor_in_range.
  - simpl. lia.
  - repeat constructor; simpl; lia.
Defined.

(** C3 as the code has it: [setColors] reports the decimal string
    rgb(R, B, G) and the hex string made of the marker and the channels in
    the same order R, B, G; for byte channels each is two hex digits. *)
Theorem setColors_reports_swapped_channels (c : Color) (w : World) :
  let reported :=
    {| rgb := ("rgb(" ++ JS.toString (r c) ++ ", " ++ JS.toString (b c) ++ ", "
                      ++ JS.toString (g c) ++ ")")%string;
       hex := (hex_marker ++ pad2 (JS.toString16 (r c)) ++ pad2 (JS.toString16 (b c))
                          ++ pad2 (JS.toString16 (g c)))%string |} in
  trace (setColors c w)
    = trace w ++ OnChange reported :: called (props (this w)) onPickEnd /\
  (byte_color c ->
     String.length (pad2 (JS.toString16 (r c))) = 2%nat /\
     String.length (pad2 (JS.toString16 (b c))) = 2%nat /\
     String.length (pad2 (JS.toString16 (g c))) = 2%nat).
Proof.
  cbv zeta. split.
  - unfold setColors. rewrite Component.call_log.
    destruct (JS.truthy (passThrough (props (this w)))); simpl;
      rewrite <- app_assoc; reflexivity.
  - assert (Hb : forall v, byte_channel v ->
                   String.length (pad2 (JS.toString16 v)) = 2%nat).
    { intros v Hv. pose proof (Blend.byte_in_bytes v Hv) as Hin.
      assert (Hall : forallb (fun v => Nat.eqb (String.length (pad2 (JS.toString16 v))) 2)
                       B64.bytes = true) by (vm_compute; reflexivity).
      rewrite forallb_forall in Hall. apply Nat.eqb_eq, Hall, Hin. }
    intros (Hr & Hg & Hbl). auto.
Qed.

Lemma setColors_reports_swapped_channels_witness :
  String.length (pad2 (JS.toString16 0)) = 2%nat /\
  String.length (pad2 (JS.toString16 16)) = 2%nat /\
  String.length (pad2 (JS.toString16 255)) = 2%nat.
Proof.
  apply (proj2 (setColors_reports_swapped_channels
                  {| r := 0; g := 255; b := 16 |}
                  (mount {| supplied := fun _ => true; cursorActive_prop := None;
                            cursorInactive_prop := None; passThrough := None;
                            pickRadius := None |}
                         {| listeners := []; body_cursor := "auto" |}))).
  unfold byte_color, byte_channel. simpl. lia.
Defined.

(** C3, the statement refuted: for (R, G, B) = (0, 255, 16) the hex string
    reported is not the channels in the order R, G, B. *)
Lemma hex_is_not_in_RGB_order :
  let c := {| r := 0; g := 255; b := 16 |} in
  hex (encode c) = "#0010ff" /\
  rgbToHex (r c) (g c) (b c) = "#00ff10" /\
  hex (encode c) <> rgbToHex (r c) (g c) (b c).
Proof. cbv zeta. repeat split. vm_compute. discriminate. Qed.

(** C4 as the code has it: with an invalid neighbourhood spec the click
    handler still returns, having called the rasterizer, then the supplied
    pick-click and pick-stop callbacks and nothing else, with the session
    torn down (idle, both listeners removed) and its continuation left
    pending; the configuration error is thrown by the continuation, before
    any pixel is read and before anything is reported (the world is the one
    the continuation started from).  Amount 4 in unit pixel is refused;
    amount 5 is accepted and, on a byte canvas, the continuation returns. *)
Theorem invalid_spec_throws_in_continuation (pr : PickRadius) (w : World) :
  pickRadius (props (this w)) = Some pr -> invalid_spec pr -> pending w = [] ->
  (forall fuel canvas x y,
     exists message, extractColors fuel canvas x y w = Threw message w) /\
  (forall e fuel canvas,
     trace (targetToCanvas e w)
     = trace w ++ Html2canvas (target e)
               :: called (props (this w)) onPickClick
               ++ called (props (this w)) onPickStop /\
     picking (this (targetToCanvas e w)) = false /\
     listening "click" TargetToCanvas (targetToCanvas e w) = false /\
     listening "keydown" HandleKeydown (targetToCanvas e w) = false /\
     exists message w',
       fulfil fuel canvas (targetToCanvas e w) = Threw message w' /\
       trace w' = trace (targetToCanvas e w)) /\
  (exists message, radii {| unit_ := "pixel"; amount := 4 |} = inl message) /\
  radii {| unit_ := "pixel"; amount := 5 |} = inr (2, -3) /\
  (forall w5 canvas x y,
     pickRadius (props (this w5)) = Some {| unit_ := "pixel"; amount := 5 |} ->
     byte_canvas canvas ->
     exists w', extractColors 6 canvas x y w5 = Returned w').
Proof.
  intros Hpr Hinv Hpend.
  destruct (Sampling.radii_invalid pr Hinv) as [message Hm].
  split; [|split; [|split; [eexists; reflexivity|split; [reflexivity|]]]];
    [| |intros w5 canvas x y H5 Hbytes;
        destruct (Lifecycle.continuation_returns (props (this w5)) 6 canvas x y w5
                    Hbytes) as (w' & Hret & _);
        [unfold runnable; rewrite H5; split;
           [right; split; [reflexivity|split; [reflexivity|simpl; lia]]|simpl; lia]
        |reflexivity
        |rewrite H5 in Hret; exists w'; exact Hret]].
  - intros fuel canvas x y. exists message. unfold extractColors.
    rewrite Hpr, Hm. reflexivity.
  - intros e fuel canvas.
    split; [apply Teardown.targetToCanvas_trace|].
    split; [unfold targetToCanvas; rewrite Teardown.stopPicking_this; reflexivity|].
    split; [unfold targetToCanvas; apply Teardown.stopPicking_unlistens|].
    split; [unfold targetToCanvas; apply Teardown.stopPicking_unlistens|].
    + set (w1 := targetToCanvas e w).
      assert (Hp1 : pending w1
                    = [ {| job_offsetX := offsetX e; job_offsetY := offsetY e;
                           job_pickRadius := Some pr |} ])
        by (unfold w1; rewrite Teardown.targetToCanvas_pending, Hpend, Hpr; reflexivity).
      assert (Hp2 : pickRadius (props (this (set_pending [] w1))) = Some pr)
        by (change (pickRadius (props (this w1)) = Some pr); unfold w1;
            rewrite Teardown.targetToCanvas_props; exact Hpr).
      exists message, (set_pending [] w1). split; [|reflexivity].
      unfold fulfil. rewrite Hp1. cbn [job_pickRadius job_offsetX job_offsetY].
      unfold extractColors. rewrite Hp2, Hm. reflexivity.
Qed.

Lemma invalid_spec_throws_in_continuation_witness :
  let p := {| supplied := fun _ => true; cursorActive_prop := None;
              cursorInactive_prop := None; passThrough := None;
              pickRadius := Some {| unit_ := "pixel"; amount := 4 |} |} in
  let w := pickColor (mount p {| listeners := []; body_cursor := "auto" |}) in
  exists message,
    extractColors 9 (fun _ _ => {| r := 0; g := 0; b := 0 |}) 3 3 w = Threw message w.
Proof.
  cbv zeta.
  apply (proj1 (invalid_spec_throws_in_continuation
                  {| unit_ := "pixel"; amount := 4 |}
                  (pickColor (mount {| supplied := fun _ => true;
                                       cursorActive_prop := None;
                                       cursorInactive_prop := None;
                                       passThrough := None;
                                       pickRadius := Some {| unit_ := "pixel"; amount := 4 |} |}
                                    {| listeners := []; body_cursor := "auto" |}))
                  eq_refl
                  (or_intror (conj eq_refl eq_refl))
                  eq_refl)).
Defined.

(** C4, the statement refuted: with unit pixel and amount 4 the click does
    not fail; it returns after calling the rasterizer and both callbacks,
    and the error only comes when the promise settles. *)
Lemma invalid_spec_rasterizes_first :
  let p := {| supplied := fun _ => true; cursorActive_prop := None;
              cursorInactive_prop := None; passThrough := None;
              pickRadius := Some {| unit_ := "pixel"; amount := 4 |} |} in
  let e := {| target := "canvas"; offsetX := 3; offsetY := 3 |} in
  let armed := pickColor (mount p {| listeners := []; body_cursor := "auto" |}) in
  step 0 (Click e) armed = Some (targetToCanvas e armed) /\
  trace (targetToCanvas e armed)
    = [Called onInit; Called onPickStart; Html2canvas "canvas";
       Called onPickClick; Called onPickStop] /\
  fulfil 0 (fun _ _ => {| r := 0; g := 0; b := 0 |}) (targetToCanvas e armed)
    = Threw "[EyeDrop] The unit 'pixel' may only have an odd amount."
            (set_pending [] (targetToCanvas e armed)).
Proof. cbv zeta. split; [|split]; vm_compute; reflexivity. Qed.

(** C5: for a valid spec the radii are the ones of the specification, and
    with enough fuel the loops read the pixels at [(cx - x, cy - y)] for x,
    then y, running from [maxRadius] down to [minRadius] excluded, skipping
    the coordinates with a negative component, in that order, and hand
    their colours to [calcAverageColor]; for unit pixel and amount 5 these
    are the cells of the 5 x 5 grid around the centre that have no negative
    coordinate. *)
Theorem extractColors_reads_neighborhood
    (pr : PickRadius) (canvas : Canvas) (cx cy : Z) (w : World) (fuel : nat) :
  valid_spec pr -> pickRadius (props (this w)) = Some pr ->
  let maxRadius := fst (spec_radii pr) in
  let minRadius := snd (spec_radii pr) in
  let cells := neighborhood maxRadius minRadius cx cy in
  (Z.to_nat (maxRadius - minRadius) < fuel)%nat ->
  radii pr = inr (maxRadius, minRadius) /\
  gather fuel canvas maxRadius minRadius cx cy w
    = Some (map (pixel canvas) cells, log (reads cells) w) /\
  extractColors fuel canvas cx cy w
    = calcAverageColor (map (pixel canvas) cells) (log (reads cells) w) /\
  (unit_ pr = "pixel" -> amount pr = 5 -> cells = filter in_bitmap (grid5 cx cy)).
Proof.
  intros Hv Hpr maxRadius minRadius cells Hfuel.
  destruct (Sampling.radii_valid pr Hv) as (Hr & Hmin & Hmax).
  assert (Hr' : radii pr = inr (maxRadius, minRadius)).
  { rewrite Hr. unfold maxRadius, minRadius. destruct (spec_radii pr); reflexivity. }
  assert (Hg : gather fuel canvas maxRadius minRadius cx cy w
               = Some (map (pixel canvas) cells, log (reads cells) w)).
  { apply Sampling.gather_neighborhood; [|exact Hfuel].
    unfold maxRadius, minRadius. lia. }
  split; [exact Hr'|]. split; [exact Hg|]. split.
  - unfold extractColors. rewrite Hpr, Hr', Hg. reflexivity.
  - intros Hu Ha. unfold cells, maxRadius, minRadius, spec_radii.
    rewrite Hu, Ha. simpl String.eqb. cbv iota.
    change ((5 - 1) / 2) with 2. change (- 2 - 1) with (-3).
    unfold neighborhood, grid5. reflexivity.
Qed.

Lemma extractColors_reads_neighborhood_witness :
  let p := {| supplied := fun _ => true; cursorActive_prop := None;
              cursorInactive_prop := None; passThrough := None;
              pickRadius := Some {| unit_ := "pixel"; amount := 5 |} |} in
  let w := mount p {| listeners := []; body_cursor := "auto" |} in
  let canvas : Canvas := fun x y => {| r := x; g := y; b := 0 |} in
  gather 6 canvas 2 (-3) 1 0 w
  = Some (map (pixel canvas) (neighborhood 2 (-3) 1 0),
          log (reads (neighborhood 2 (-3) 1 0)) w).
Proof.
  cbv zeta.
  apply (extractColors_reads_neighborhood
           {| unit_ := "pixel"; amount := 5 |}
           (fun x y => {| r := x; g := y; b := 0 |}) 1 0
           (mount {| supplied := fun _ => true; cursorActive_prop := None;
                     cursorInactive_prop := None; passThrough := None;
                     pickRadius := Some {| unit_ := "pixel"; amount := 5 |} |}
                  {| listeners := []; body_cursor := "auto" |}) 6%nat).
  - right. split; [reflexivity|]. split; [reflexivity|simpl; lia].
  - reflexivity.
  - simpl. lia.
Defined.

(** C6: after [pickColor], [componentWillUnmount] leaves the keydown
    listener (and the click listener) registered: it removes a listener of
    type keypress, which [pickColor] never registers. *)
Theorem unmount_keeps_keydown_listener (p : Props) (d : Document) :
  let w := componentWillUnmount (pickColor (mount p d)) in
  listening "keydown" HandleKeydown w = true /\
  listening "click" TargetToCanvas w = true.
Proof.
  cbv zeta. unfold componentWillUnmount.
  rewrite !Component.listening_remove_other by (left; discriminate).
  unfold pickColor. split.
  - apply (Component.listening_add "keydown" HandleKeydown).
  - apply (Component.listening_add_mono "click" TargetToCanvas "keydown" HandleKeydown).
    apply Component.listening_add.
Qed.

(** C7 as the code has it: after one [stopPicking], another one changes
    neither the instance, nor the document, nor the pending promises; it
    only invokes the pick-stop callback once more when the host supplied
    one. *)
Theorem stopPicking_again (w : World) :
  let w1 := stopPicking w in
  this (stopPicking w1) = this w1 /\
  document (stopPicking w1) = document w1 /\
  pending (stopPicking w1) = pending w1 /\
  trace (stopPicking w1) = trace w1 ++ called (props (this w)) onPickStop.
Proof.
  cbv zeta.
  repeat (rewrite Teardown.stopPicking_this || rewrite Teardown.stopPicking_document
          || rewrite Teardown.stopPicking_pending || rewrite Teardown.stopPicking_trace).
  simpl. repeat split. f_equal.
  rewrite (Component.filter_comm _
             (fun entry => negb (same_listener "click" TargetToCanvas entry))).
  rewrite Component.filter_idem.
  rewrite (Component.filter_comm _
             (fun entry => negb (same_listener "click" TargetToCanvas entry))).
  rewrite Component.filter_idem. reflexivity.
Qed.

(** C7, the statement refuted: with a pick-stop callback supplied,
    [stopPicking] on an idle session invokes it, and twice in a row invokes
    it twice. *)
Lemma stopPicking_twice_calls_twice :
  let p := {| supplied := fun _ => true; cursorActive_prop := None;
              cursorInactive_prop := None; passThrough := None;
              pickRadius := None |} in
  let idle := mount p {| listeners := []; body_cursor := "auto" |} in
  picking (this idle) = false /\
  stopPicking idle <> idle /\
  hooks_of (trace (stopPicking (stopPicking (pickColor idle))))
    = [onInit; onPickStart; onPickStop; onPickStop].
Proof.
  cbv zeta. split; [reflexivity|]. split; [|reflexivity].
  intros E. apply (f_equal trace) in E. vm_compute in E. discriminate.
Qed.

(** C8: [cancelPick] on an idle session changes nothing; on an armed one it
    invokes pick-cancel once (when supplied), then does exactly the
    teardown of [stopPicking], ends idle with no listener left, and reports
    no colour. *)
Theorem cancelPick_idle_and_armed (w : World) :
  (picking (this w) = false -> cancelPick w = w) /\
  (picking (this w) = true ->
     cancelPick w = stopPicking (call onPickCancel w) /\
     picking (this (cancelPick w)) = false /\
     trace (cancelPick w)
       = trace w ++ called (props (this w)) onPickCancel
                 ++ called (props (this w)) onPickStop /\
     pending (cancelPick w) = pending w /\
     listening "click" TargetToCanvas (cancelPick w) = false /\
     listening "keydown" HandleKeydown (cancelPick w) = false /\
     body_cursor (document (cancelPick w)) = cursorInactive (this w)).
Proof.
  unfold cancelPick. split; intros ->; [reflexivity|].
  split; [reflexivity|].
  destruct (Teardown.stopPicking_unlistens (call onPickCancel w)) as [Hc Hk].
  rewrite Teardown.stopPicking_this, Teardown.stopPicking_trace, Teardown.stopPicking_pending,
    Teardown.stopPicking_document, Component.call_log, Component.call_this,
    Component.call_pending, app_assoc.
  repeat split; assumption.
Qed.

Lemma cancelPick_idle_and_armed_witness :
  let p := {| supplied := fun _ => true; cursorActive_prop := None;
              cursorInactive_prop := None; passThrough := None;
              pickRadius := None |} in
  let idle := mount p {| listeners := []; body_cursor := "auto" |} in
  cancelPick idle = idle /\
  hooks_of (trace (cancelPick (pickColor idle)))
    = [onInit; onPickStart; onPickCancel; onPickStop].
Proof.
  cbv zeta. split.
  - apply (proj1 (cancelPick_idle_and_armed _)). reflexivity.
  - destruct (proj2 (cancelPick_idle_and_armed
                       (pickColor (mount {| supplied := fun _ => true;
                                            cursorActive_prop := None;
                                            cursorInactive_prop := None;
                                            passThrough := None;
                                            pickRadius := None |}
                                         {| listeners := []; body_cursor := "auto" |})))
                eq_refl) as (_ & _ & -> & _).
    reflexivity.
Defined.

(** C9: a full pick (the control is clicked, the target is clicked, the
    promise settles) invokes the supplied callbacks in the order init,
    pick-start, pick-click, pick-stop, pick-end; and in every run of a
    component whose callbacks are all supplied the callbacks invoked are
    accepted by the lifecycle automaton: pick-click only while armed by a
    pick-start, pick-stop right after it, pick-end only for a click whose
    pick-stop has fired. *)
Theorem lifecycle_callbacks_in_order (p : Props) (d : Document) (fuel : nat) :
  (forall e canvas,
     byte_canvas canvas -> runnable p fuel ->
     exists w,
       run fuel [Press; Click e; Fulfil canvas] (mount p d) = Some w /\
       hooks_of (trace w)
       = filter (supplied p)
           [onInit; onPickStart; onPickClick; onPickStop; onPickEnd]) /\
  (fresh_document d -> (forall h, supplied p h = true) ->
   forall actions w,
     run fuel actions (mount p d) = Some w ->
     exists st, accepts (Fresh, O) (hooks_of (trace w)) = Some st).
Proof.
  split.
  - intros e canvas Hbytes Hrun. apply Lifecycle.full_pick; assumption.
  - intros Hd Hs actions w Hrun.
    destruct (Lifecycle.run_consistent fuel actions _ _ _ _
                (Lifecycle.mount_consistent p d Hd Hs) Hrun) as (ph & due & Hc).
    exists (ph, due). apply Hc.
Qed.

Lemma lifecycle_callbacks_in_order_witness :
  let p := {| supplied := fun _ => true; cursorActive_prop := None;
              cursorInactive_prop := None; passThrough := None;
              pickRadius := Some {| unit_ := "pixel"; amount := 3 |} |} in
  let d := {| listeners := []; body_cursor := "auto" |} in
  let e := {| target := "canvas"; offsetX := 1; offsetY := 0 |} in
  let canvas : Canvas := fun _ _ => {| r := 255; g := 128; b := 0 |} in
  (exists w,
     run 4 [Press; Click e; Fulfil canvas] (mount p d) = Some w /\
     hooks_of (trace w) = [onInit; onPickStart; onPickClick; onPickStop; onPickEnd]) /\
  (exists w st,
     run 4 [Press; KeyDown {| key := "Escape" |}; Press; Click e; Fulfil canvas]
       (mount p d) = Some w /\
     accepts (Fresh, O) (hooks_of (trace w)) = Some st).
Proof.
  cbv zeta.
  destruct (lifecycle_callbacks_in_order
              {| supplied := fun _ => true; cursorActive_prop := None;
                 cursorInactive_prop := None; passThrough := None;
                 pickRadius := Some {| unit_ := "pixel"; amount := 3 |} |}
              {| listeners := []; body_cursor := "auto" |} 4) as [Hfull Hany].
  split.
  - apply (Hfull {| target := "canvas"; offsetX := 1; offsetY := 0 |}
                 (fun _ _ => {| r := 255; g := 128; b := 0 |})).
    + intros x y. unfold byte_color, byte_channel. simpl. lia.
    + split; [right; split; [reflexivity|split; [reflexivity|simpl; lia]]|simpl; lia].
  - assert (E : exists w,
               run 4 [Press; KeyDown {| key := "Escape" |}; Press;
                      Click {| target := "canvas"; offsetX := 1; offsetY := 0 |};
                      Fulfil (fun _ _ => {| r := 255; g := 128; b := 0 |})]
                 (mount {| supplied := fun _ => true; cursorActive_prop := None;
                           cursorInactive_prop := None; passThrough := None;
                           pickRadius := Some {| unit_ := "pixel"; amount := 3 |} |}
                        {| listeners := []; body_cursor := "auto" |}) = Some w)
      by (vm_compute; eexists; reflexivity).
    destruct E as [w E].
    destruct (Hany ltac:(intros type l; reflexivity) ltac:(intros h; reflexivity) _ w E)
      as [st Hst].
    exists w, st. split; assumption.
Defined.

(** * Further results *)

(** X1: a single byte sample is not averaged but squared: every channel
    handed to [setColors] is the square of the sample's channel. *)
Theorem averageColor_single (c : Color) :
  byte_color c ->
  averageColor [c] = Some {| r := r c * r c; g := g c * g c; b := b c * b c |}.
Proof.
  intros (Hr & Hg & Hb). unfold averageColor.
  destruct (Blend.map_totals_spec [c] 0 {| totalR := 0; totalG := 0; totalB := 0 |})
    as (-> & -> & ->).
  cbn [Nat.eqb map totalR totalG totalB].
  rewrite !ClosedForms.single_channel by assumption. reflexivity.
Qed.

Lemma averageColor_single_witness :
  averageColor [ {| r := 200; g := 0; b := 255 |} ]
  = Some {| r := 40000; g := 0; b := 65025 |}.
Proof.
  apply (averageColor_single {| r := 200; g := 0; b := 255 |}).
  unfold byte_color, byte_channel. simpl. lia.
Defined.

(** X2: two byte samples are blended into their root mean square, rounded
    down, channel by channel; in particular the order of the two does not
    matter and two equal samples give that sample. *)
Theorem averageColor_pair (c1 c2 : Color) :
  byte_color c1 -> byte_color c2 ->
  averageColor [c1; c2]
  = Some {| r := rms (r c1) (r c2); g := rms (g c1) (g c2); b := rms (b c1) (b c2) |} /\
  averageColor [c2; c1] = averageColor [c1; c2] /\
  (c1 = c2 -> averageColor [c1; c2] = Some c1).
Proof.
  intros B1 B2. pose proof B1 as (Hr1 & Hg1 & Hb1).
  assert (E : forall a a',
             byte_color a -> byte_color a' ->
             averageColor [a; a']
             = Some {| r := rms (r a) (r a'); g := rms (g a) (g a');
                       b := rms (b a) (b a') |}).
  { intros a a' (Ar & Ag & Ab) (Ar' & Ag' & Ab'). unfold averageColor.
    destruct (Blend.map_totals_spec [a; a'] 0
                {| totalR := 0; totalG := 0; totalB := 0 |}) as (-> & -> & ->).
    cbn [Nat.eqb map totalR totalG totalB].
    rewrite !ClosedForms.pair_channel by assumption. reflexivity. }
  assert (Hsym : forall x y, rms x y = rms y x)
    by (intros x y; unfold rms; f_equal; f_equal; lia).
  assert (Hsame : forall x, 0 <= x -> rms x x = x).
  { intros x Hx. unfold rms. replace ((x * x + x * x) / 2) with (x * x).
    - apply Z.sqrt_square. exact Hx.
    - apply Z.div_unique_exact; lia. }
  split; [apply E; assumption|]. split.
  - rewrite !E by assumption.
    rewrite (Hsym (r c2)), (Hsym (g c2)), (Hsym (b c2)). reflexivity.
  - intros <-. rewrite E by assumption.
    rewrite !Hsame by (unfold byte_channel in *; lia). destruct c1; reflexivity.
Qed.

Lemma averageColor_pair_witness :
  averageColor [ {| r := 255; g := 3; b := 0 |}; {| r := 0; g := 4; b := 0 |} ]
  = Some {| r := rms 255 0; g := rms 3 4; b := rms 0 0 |}.
Proof.
  apply (averageColor_pair {| r := 255; g := 3; b := 0 |} {| r := 0; g := 4; b := 0 |});
    unfold byte_color, byte_channel; simpl; lia.
Defined.

(** X3: with three byte samples or more the result is governed by the last
    sample [c]: each channel lies between the integer square roots of
    [c * c / 2] and of [(c * c + 256) / 2], whatever the earlier samples
    were, and so never exceeds 180. *)
Theorem averageColor_last_sample (colors : list Color) (c : Color) :
  (2 <= List.length colors)%nat -> Forall byte_color colors -> byte_color c ->
  exists res,
    averageColor (colors ++ [c]) = Some res /\
    last_lo (r c) <= r res <= last_hi (r c) /\
    last_lo (g c) <= g res <= last_hi (g c) /\
    last_lo (b c) <= b res <= last_hi (b c) /\
    r res <= 180 /\ g res <= 180 /\ b res <= 180.
Proof.
  intros Hlen Hall (Hr & Hg & Hb).
  destruct (Blend.channels_bytes colors Hall) as (Ar & Ag & Ab).
  unfold averageColor.
  destruct (Blend.map_totals_spec (colors ++ [c]) 0
              {| totalR := 0; totalG := 0; totalB := 0 |}) as (-> & -> & ->).
  cbn [Nat.eqb totalR totalG totalB]. rewrite !map_app. cbn [map].
  destruct (ClosedForms.last_channel (map r colors) (r c)) as (zr & -> & Br & Cr);
    [rewrite length_map; exact Hlen|exact Ar|exact Hr|].
  destruct (ClosedForms.last_channel (map g colors) (g c)) as (zg & -> & Bg & Cg);
    [rewrite length_map; exact Hlen|exact Ag|exact Hg|].
  destruct (ClosedForms.last_channel (map b colors) (b c)) as (zb & -> & Bb & Cb);
    [rewrite length_map; exact Hlen|exact Ab|exact Hb|].
  exists {| r := zr; g := zg; b := zb |}. simpl. repeat split; lia.
Qed.

Lemma averageColor_last_sample_witness :
  exists res,
    averageColor ([ {| r := 255; g := 255; b := 255 |};
                    {| r := 255; g := 255; b := 255 |} ]
                  ++ [ {| r := 255; g := 0; b := 9 |} ]) = Some res /\
    last_lo 255 <= r res <= last_hi 255 /\
    last_lo 0 <= g res <= last_hi 0 /\
    last_lo 9 <= b res <= last_hi 9 /\
    r res <= 180 /\ g res <= 180 /\ b res <= 180.
Proof.
  apply (averageColor_last_sample
           [ {| r := 255; g := 255; b := 255 |}; {| r := 255; g := 255; b := 255 |} ]
           {| r := 255; g := 0; b := 9 |}).
  - simpl. lia.
  - repeat constructor; simpl; lia.
  - unfold byte_color, byte_channel. simpl. lia.
Defined.

(** X4: for a valid spec and enough fuel the loops of [extractColors]
    return, having added to the trace exactly one pixel read for every
    cell within [maxRadius] of the click in both directions that has no
    negative coordinate, and nothing else; the colours read are handed to
    [calcAverageColor].  When the click is at least [maxRadius] away from
    the top and left edges there are (2 * maxRadius + 1)^2 reads (amount^2
    for unit pixel). *)
Theorem neighborhood_cells
    (pr : PickRadius) (canvas : Canvas) (cx cy : Z) (w : World) (fuel : nat) :
  valid_spec pr -> pickRadius (props (this w)) = Some pr ->
  (Z.to_nat (fst (spec_radii pr) - snd (spec_radii pr)) < fuel)%nat ->
  exists maxRadius minRadius cells w',
    radii pr = inr (maxRadius, minRadius) /\
    gather fuel canvas maxRadius minRadius cx cy w
      = Some (map (pixel canvas) cells, w') /\
    extractColors fuel canvas cx cy w
      = calcAverageColor (map (pixel canvas) cells) w' /\
    this w' = this w /\ document w' = document w /\ pending w' = pending w /\
    trace w' = trace w ++ reads cells /\
    (forall a b,
       In (GetCanvasPixelColor a b) (reads cells) <->
       0 <= a /\ 0 <= b /\
       cx - maxRadius <= a <= cx + maxRadius /\
       cy - maxRadius <= b <= cy + maxRadius) /\
    NoDup (reads cells) /\
    (maxRadius <= cx -> maxRadius <= cy ->
     Z.of_nat (List.length (reads cells))
     = (2 * maxRadius + 1) * (2 * maxRadius + 1)) /\
    (unit_ pr = "pixel" -> 2 * maxRadius + 1 = amount pr).
Proof.
  intros Hv Hpr Hfuel. destruct (Sampling.radii_valid pr Hv) as (Hr & Hmin & Hmax).
  assert (Hpixel : unit_ pr = "pixel" -> 2 * fst (spec_radii pr) + 1 = amount pr).
  { intros Hu. unfold spec_radii. rewrite Hu, String.eqb_refl. cbn [fst].
    destruct Hv as [[Hrad _]|(_ & Hodd & Hpos)]; [congruence|].
    apply Z.odd_spec in Hodd. destruct Hodd as [k ->].
    replace (2 * k + 1 - 1) with (k * 2) by lia. rewrite Z.div_mul by lia. lia. }
  destruct (spec_radii pr) as [maxRadius minRadius]. simpl fst in *. simpl snd in *.
  subst minRadius.
  assert (Hg : gather fuel canvas maxRadius (- maxRadius - 1) cx cy w
               = Some (map (pixel canvas) (neighborhood maxRadius (- maxRadius - 1) cx cy),
                       log (reads (neighborhood maxRadius (- maxRadius - 1) cx cy)) w))
    by (apply Sampling.gather_neighborhood; [lia|exact Hfuel]).
  exists maxRadius, (- maxRadius - 1), (neighborhood maxRadius (- maxRadius - 1) cx cy),
    (log (reads (neighborhood maxRadius (- maxRadius - 1) cx cy)) w).
  split; [exact Hr|]. split; [exact Hg|].
  split; [unfold extractColors; rewrite Hpr, Hr, Hg; reflexivity|].
  split; [reflexivity|]. split; [reflexivity|]. split; [reflexivity|].
  split; [reflexivity|]. split; [|split; [|split]].
  - intros a b. rewrite Cells.reads_In. apply Cells.neighborhood_In. exact Hmax.
  - apply Cells.reads_NoDup, Cells.neighborhood_NoDup.
  - unfold reads. rewrite length_map. apply Cells.neighborhood_length. exact Hmax.
  - exact Hpixel.
Qed.

Lemma neighborhood_cells_witness :
  let p := {| supplied := fun _ => true; cursorActive_prop := None;
              cursorInactive_prop := None; passThrough := None;
              pickRadius := Some {| unit_ := "pixel"; amount := 5 |} |} in
  let w := mount p {| listeners := []; body_cursor := "auto" |} in
  let canvas : Canvas := fun _ _ => {| r := 10; g := 20; b := 30 |} in
  exists maxRadius minRadius cells w',
    radii {| unit_ := "pixel"; amount := 5 |} = inr (maxRadius, minRadius) /\
    gather 6 canvas maxRadius minRadius 7 9 w
      = Some (map (pixel canvas) cells, w') /\
    extractColors 6 canvas 7 9 w
      = calcAverageColor (map (pixel canvas) cells) w' /\
    this w' = this w /\ document w' = document w /\ pending w' = pending w /\
    trace w' = trace w ++ reads cells /\
    (forall a b,
       In (GetCanvasPixelColor a b) (reads cells) <->
       0 <= a /\ 0 <= b /\
       7 - maxRadius <= a <= 7 + maxRadius /\
       9 - maxRadius <= b <= 9 + maxRadius) /\
    NoDup (reads cells) /\
    (maxRadius <= 7 -> maxRadius <= 9 ->
     Z.of_nat (List.length (reads cells))
     = (2 * maxRadius + 1) * (2 * maxRadius + 1)) /\
    (2 * maxRadius + 1 = 5).
Proof.
  cbv zeta.
  destruct (neighborhood_cells
              {| unit_ := "pixel"; amount := 5 |}
              (fun _ _ => {| r := 10; g := 20; b := 30 |}) 7 9
              (mount {| supplied := fun _ => true; cursorActive_prop := None;
                        cursorInactive_prop := None; passThrough := None;
                        pickRadius := Some {| unit_ := "pixel"; amount := 5 |} |}
                     {| listeners := []; body_cursor := "auto" |}) 6)
    as (maxRadius & minRadius & cells & w' & H1 & H2 & H3 & H4 & H5 & H6 & H7 & H8
        & H9 & H10 & H11).
  - right. split; [reflexivity|]. split; [reflexivity|simpl; lia].
  - reflexivity.
  - simpl. lia.
  - exists maxRadius, minRadius, cells, w'.
    repeat (split; [assumption|]). apply H11. reflexivity.
Defined.

(** X5: a click further than [maxRadius] to the left of, or above, the
    origin of the target leaves no cell to read: nothing is read and black
    is reported. *)
Theorem extractColors_outside (pr : PickRadius) (canvas : Canvas) (cx cy : Z)
    (w : World) (fuel : nat) :
  valid_spec pr -> pickRadius (props (this w)) = Some pr ->
  (Z.to_nat (fst (spec_radii pr) - snd (spec_radii pr)) < fuel)%nat ->
  cx + fst (spec_radii pr) < 0 \/ cy + fst (spec_radii pr) < 0 ->
  neighborhood (fst (spec_radii pr)) (snd (spec_radii pr)) cx cy = [] /\
  extractColors fuel canvas cx cy w
  = Returned (setColors {| r := 0; g := 0; b := 0 |} w).
Proof.
  intros Hv Hpr Hfuel Hout.
  destruct (Sampling.radii_valid pr Hv) as (Hr & Hmin & Hmax).
  assert (Hnil : neighborhood (fst (spec_radii pr)) (snd (spec_radii pr)) cx cy = []).
  { rewrite Hmin. apply Cells.neighborhood_outside; assumption. }
  split; [exact Hnil|].
  unfold extractColors. rewrite Hpr, Hr.
  destruct (spec_radii pr) as [maxRadius minRadius]. simpl fst in *. simpl snd in *.
  rewrite Sampling.gather_neighborhood by (try exact Hfuel; lia).
  rewrite Hnil. simpl map. change (reads []) with (@nil effect).
  rewrite Sampling.log_nil. reflexivity.
Qed.

Lemma extractColors_outside_witness :
  let p := {| supplied := fun _ => true; cursorActive_prop := None;
              cursorInactive_prop := None; passThrough := None;
              pickRadius := Some {| unit_ := "radius"; amount := 1 |} |} in
  let w := mount p {| listeners := []; body_cursor := "auto" |} in
  extractColors 4 (fun _ _ => {| r := 9; g := 9; b := 9 |}) (-2) 5 w
  = Returned (setColors {| r := 0; g := 0; b := 0 |} w).
Proof.
  cbv zeta.
  apply (extractColors_outside {| unit_ := "radius"; amount := 1 |}).
  - left. split; [reflexivity|simpl; lia].
  - reflexivity.
  - simpl. lia.
  - left. simpl. lia.
Defined.

(** X6: a negative amount (unit radius, or unit pixel with an odd amount)
    passes the validation with [maxRadius < minRadius]; the loops then
    count down from below their stop value and never end, whatever the
    fuel. *)
Theorem negative_amount_never_returns (pr : PickRadius) (w : World) :
  negative_spec pr -> pickRadius (props (this w)) = Some pr ->
  (exists maxRadius minRadius,
     radii pr = inr (maxRadius, minRadius) /\ maxRadius < minRadius) /\
  (forall fuel canvas cx cy, extractColors fuel canvas cx cy w = OutOfFuel).
Proof.
  intros [Hneg Hunit] Hpr.
  assert (Hr : exists maxRadius minRadius,
             radii pr = inr (maxRadius, minRadius) /\ maxRadius < minRadius).
  { unfold radii. destruct Hunit as [Hu|[Hu Hodd]]; rewrite Hu.
    - rewrite String.eqb_refl. eexists _, _. split; [reflexivity|lia].
    - change ("pixel" =? "radius")%string with false. rewrite String.eqb_refl.
      pose proof (Sampling.odd_rem _ Hodd) as Hrem. apply Z.eqb_neq in Hrem.
      rewrite Hrem. cbn [negb]. eexists _, _. split; [reflexivity|].
      apply Z.odd_spec in Hodd. destruct Hodd as [k E]. rewrite E.
      replace (2 * k + 1 - 1) with (k * 2) by lia. rewrite Z.div_mul by lia. lia. }
  split; [exact Hr|]. destruct Hr as (maxRadius & minRadius & Hr & Hlt).
  intros fuel canvas cx cy. unfold extractColors, gather.
  rewrite Hpr, Hr, Cells.for_down_below by exact Hlt. reflexivity.
Qed.

Lemma negative_amount_never_returns_witness :
  let p := {| supplied := fun _ => true; cursorActive_prop := None;
              cursorInactive_prop := None; passThrough := None;
              pickRadius := Some {| unit_ := "pixel"; amount := -3 |} |} in
  let w := mount p {| listeners := []; body_cursor := "auto" |} in
  radii {| unit_ := "pixel"; amount := -3 |} = inr (-2, 1) /\
  extractColors 1000 (fun _ _ => {| r := 9; g := 9; b := 9 |}) 5 5 w = OutOfFuel.
Proof.
  cbv zeta. split; [reflexivity|].
  apply (negative_amount_never_returns {| unit_ := "pixel"; amount := -3 |}).
  - split; [simpl; lia|right; split; reflexivity].
  - reflexivity.
Defined.

(** X7: a neighbourhood of one cell (unit radius with amount 0, or unit
    pixel with amount 1) reads the clicked pixel only and reports the
    squares of its channels, not the pixel. *)
Theorem extractColors_one_cell (pr : PickRadius) (canvas : Canvas) (cx cy : Z)
    (w : World) (fuel : nat) :
  valid_spec pr -> pickRadius (props (this w)) = Some pr ->
  fst (spec_radii pr) = 0 -> (1 < fuel)%nat ->
  0 <= cx -> 0 <= cy -> byte_color (canvas cx cy) ->
  extractColors fuel canvas cx cy w
  = Returned
      (setColors {| r := r (canvas cx cy) * r (canvas cx cy);
                    g := g (canvas cx cy) * g (canvas cx cy);
                    b := b (canvas cx cy) * b (canvas cx cy) |}
                 (emit (GetCanvasPixelColor cx cy) w)).
Proof.
  intros Hv Hpr Hzero Hfuel Hcx Hcy Hbyte.
  destruct (Sampling.radii_valid pr Hv) as (Hr & Hmin & _).
  unfold extractColors. rewrite Hpr, Hr.
  destruct (spec_radii pr) as [maxRadius minRadius]. simpl fst in *. simpl snd in *.
  subst maxRadius minRadius.
  rewrite Sampling.gather_neighborhood by (simpl; lia).
  assert (Hcells : neighborhood 0 (- 0 - 1) cx cy = [(cx, cy)]).
  { unfold neighborhood. change (offsets 0 (- 0 - 1)) with [0]. cbn [flat_map map app].
    rewrite !Z.sub_0_r. cbn [filter].
    replace (in_bitmap (cx, cy)) with true; [reflexivity|].
    symmetry. apply Cells.in_bitmap_spec. lia. }
  rewrite Hcells. unfold calcAverageColor. cbn [map pixel fst snd].
  rewrite averageColor_single by exact Hbyte. reflexivity.
Qed.

Lemma extractColors_one_cell_witness :
  let p := {| supplied := fun _ => true; cursorActive_prop := None;
              cursorInactive_prop := None; passThrough := None;
              pickRadius := Some {| unit_ := "pixel"; amount := 1 |} |} in
  let w := mount p {| listeners := []; body_cursor := "auto" |} in
  let canvas : Canvas := fun _ _ => {| r := 10; g := 20; b := 30 |} in
  extractColors 2 canvas 4 4 w
  = Returned (setColors {| r := 10 * 10; g := 20 * 20; b := 30 * 30 |}
                        (emit (GetCanvasPixelColor 4 4) w)).
Proof.
  cbv zeta.
  apply (extractColors_one_cell {| unit_ := "pixel"; amount := 1 |}
           (fun _ _ => {| r := 10; g := 20; b := 30 |}) 4 4).
  - right. split; [reflexivity|]. split; [reflexivity|simpl; lia].
  - reflexivity.
  - reflexivity.
  - lia.
  - lia.
  - lia.
  - unfold byte_color, byte_channel. simpl. lia.
Defined.

(** X8: in every state a component mounted with [p] in a document without
    listeners of it can reach, the props are [p], the document holds the
    click and keydown listeners exactly while [picking] is set and none
    otherwise, and the cursor is the active one while picking and the
    document's own or the inactive one otherwise. *)
Theorem run_keeps_session_state
    (p : Props) (d : Document) (fuel : nat) (actions : list action) (w : World) :
  fresh_document d -> run fuel actions (mount p d) = Some w ->
  props (this w) = p /\
  listeners (document w) = (if picking (this w) then armed_listeners else []) /\
  (picking (this w) = true ->
   body_cursor (document w) = or_default (cursorActive_prop p) "copy") /\
  (picking (this w) = false ->
   body_cursor (document w) = body_cursor d \/
   body_cursor (document w) = or_default (cursorInactive_prop p) "auto").
Proof.
  intros F H. pose proof (Session.reachable_session _ _ _ _ _ F H) as Hs.
  split; [exact (ss_props _ _ _ _ Hs)|]. split; [exact (ss_listeners _ _ _ _ Hs)|].
  pose proof (ss_cursor _ _ _ _ Hs) as Hc.
  rewrite <- (ss_active _ _ _ _ Hs), <- (ss_inactive _ _ _ _ Hs).
  destruct (picking (this w)); split; intros E; try discriminate; exact Hc.
Qed.

Lemma run_keeps_session_state_witness :
  let p := {| supplied := fun h => match h with onPickStop => false | _ => true end;
              cursorActive_prop := Some "crosshair";
              cursorInactive_prop := None; passThrough := None;
              pickRadius := None |} in
  let d := {| listeners := []; body_cursor := "pointer" |} in
  let w := pickColor (mount p d) in
  props (this w) = p /\
  listeners (document w) = (if picking (this w) then armed_listeners else []) /\
  (picking (this w) = true ->
   body_cursor (document w) = or_default (cursorActive_prop p) "copy") /\
  (picking (this w) = false ->
   body_cursor (document w) = body_cursor d \/
   body_cursor (document w) = or_default (cursorInactive_prop p) "auto").
Proof.
  cbv zeta.
  apply (run_keeps_session_state _ _ 0%nat [Press]).
  - intros type l. reflexivity.
  - reflexivity.
Defined.

(** X9: in every reachable state unmounting changes nothing, since no
    keypress listener is ever registered; while the session is idle a click
    or a key reaching the document is ignored, and while it is armed a
    click runs the click handler, which leaves the session idle. *)
Theorem reachable_event_handling
    (p : Props) (d : Document) (fuel : nat) (actions : list action) (w : World) :
  fresh_document d -> run fuel actions (mount p d) = Some w ->
  componentWillUnmount w = w /\
  (picking (this w) = false ->
   forall e k,
     step fuel (Click e) w = Some w /\ step fuel (KeyDown k) w = Some w) /\
  (picking (this w) = true ->
   forall e,
     step fuel (Click e) w = Some (targetToCanvas e w) /\
     picking (this (targetToCanvas e w)) = false /\
     listeners (document (targetToCanvas e w)) = []).
Proof.
  intros F H. pose proof (Session.reachable_session _ _ _ _ _ F H) as Hs.
  destruct (Session.listening_session _ _ _ _ Hs) as [Lc Lk].
  split; [exact (Session.unmount_session _ _ _ _ Hs)|]. split.
  - intros E e k. cbn [step]. rewrite Lc, Lk, E. split; reflexivity.
  - intros E e. cbn [step]. rewrite Lc, E. split; [reflexivity|].
    rewrite Session.targetToCanvas_this, Session.targetToCanvas_document.
    cbn [picking listeners]. rewrite (ss_listeners _ _ _ _ Hs), E.
    split; reflexivity.
Qed.

Lemma reachable_event_handling_witness :
  let p := {| supplied := fun _ => true; cursorActive_prop := None;
              cursorInactive_prop := None; passThrough := None;
              pickRadius := None |} in
  let d := {| listeners := []; body_cursor := "auto" |} in
  let e := {| target := "page"; offsetX := 1; offsetY := 2 |} in
  let w := targetToCanvas e (pickColor (mount p d)) in
  componentWillUnmount w = w /\
  (picking (this w) = false ->
   forall e k,
     step 0 (Click e) w = Some w /\ step 0 (KeyDown k) w = Some w) /\
  (picking (this w) = true ->
   forall e,
     step 0 (Click e) w = Some (targetToCanvas e w) /\
     picking (this (targetToCanvas e w)) = false /\
     listeners (document (targetToCanvas e w)) = []).
Proof.
  cbv zeta.
  apply (reachable_event_handling
           {| supplied := fun _ => true; cursorActive_prop := None;
              cursorInactive_prop := None; passThrough := None;
              pickRadius := None |}
           {| listeners := []; body_cursor := "auto" |} 0%nat
           [Press; Click {| target := "page"; offsetX := 1; offsetY := 2 |}]).
  - intros type l. reflexivity.
  - reflexivity.
Defined.

(** X10: in every run there are at most as many rasterizations as presses
    of the control (one less while the session is armed), and the colours
    reported plus the promises still pending are at most the
    rasterizations; they are exactly the rasterizations unless the
    configured neighbourhood spec is invalid. *)
Theorem one_report_per_rasterization
    (p : Props) (d : Document) (fuel : nat) (actions : list action) (w : World) :
  fresh_document d -> run fuel actions (mount p d) = Some w ->
  (count is_rasterize (trace w) + arming w <= presses actions)%nat /\
  (count is_report (trace w) + List.length (pending w)
   <= count is_rasterize (trace w))%nat /\
  ((forall pr, pickRadius p = Some pr -> ~ invalid_spec pr) ->
   (count is_report (trace w) + List.length (pending w))%nat
   = count is_rasterize (trace w)).
Proof.
  intros F H. pose proof (Session.reachable_session _ _ _ _ _ F H) as Hs.
  split; [exact (ss_presses _ _ _ _ Hs)|].
  split; [exact (ss_reports _ _ _ _ Hs)|exact (ss_exact _ _ _ _ Hs)].
Qed.

Lemma one_report_per_rasterization_witness :
  let p := {| supplied := fun _ => true; cursorActive_prop := None;
              cursorInactive_prop := None; passThrough := None;
              pickRadius := None |} in
  let d := {| listeners := []; body_cursor := "auto" |} in
  let e := {| target := "page"; offsetX := 1; offsetY := 2 |} in
  let canvas : Canvas := fun _ _ => {| r := 1; g := 2; b := 3 |} in
  let actions := [Press; Press; Click e; Click e; Fulfil canvas; Fulfil canvas; Press] in
  exists w,
    run 0 actions (mount p d) = Some w /\
    (count is_rasterize (trace w) + arming w <= presses actions)%nat /\
    (count is_report (trace w) + List.length (pending w)
     <= count is_rasterize (trace w))%nat /\
    ((forall pr, pickRadius p = Some pr -> ~ invalid_spec pr) ->
     (count is_report (trace w) + List.length (pending w))%nat
     = count is_rasterize (trace w)).
Proof.
  cbv zeta.
  assert (E : exists w,
             run 0 [Press; Press;
                    Click {| target := "page"; offsetX := 1; offsetY := 2 |};
                    Click {| target := "page"; offsetX := 1; offsetY := 2 |};
                    Fulfil (fun _ _ => {| r := 1; g := 2; b := 3 |});
                    Fulfil (fun _ _ => {| r := 1; g := 2; b := 3 |}); Press]
               (mount {| supplied := fun _ => true; cursorActive_prop := None;
                         cursorInactive_prop := None; passThrough := None;
                         pickRadius := None |}
                      {| listeners := []; body_cursor := "auto" |}) = Some w)
    by (vm_compute; eexists; reflexivity).
  destruct E as [w E]. exists w. split; [exact E|].
  refine (one_report_per_rasterization _ _ _ _ _ _ E).
  intros type l. reflexivity.
Defined.

(** X11: without [pickRadius], a full pick reads the one pixel at the
    click offsets, whatever their sign, and reports its colour as it is;
    the trace is exactly the supplied callbacks around the rasterization,
    the read and the report, the colour is stored in the state only when
    [passThrough] is truthy, and the session ends idle with nothing
    pending. *)
Theorem single_pixel_pick
    (p : Props) (d : Document) (e : MouseEvent) (canvas : Canvas) (fuel : nat) :
  pickRadius p = None ->
  exists w,
    run fuel [Press; Click e; Fulfil canvas] (mount p d) = Some w /\
    trace w
    = called p onInit ++ called p onPickStart
      ++ Html2canvas (target e) :: called p onPickClick ++ called p onPickStop
      ++ GetCanvasPixelColor (offsetX e) (offsetY e)
         :: OnChange (encode (canvas (offsetX e) (offsetY e)))
         :: called p onPickEnd /\
    state_colors (this w)
    = (if JS.truthy (passThrough p) then encode (canvas (offsetX e) (offsetY e))
       else {| rgb := ""; hex := "" |}) /\
    picking (this w) = false /\ pending w = [].
Proof.
  intros Hnone. rewrite Lifecycle.run_pick.
  destruct (Lifecycle.mount_facts p d) as (Hp & Hpend & Htr).
  assert (Hstate : state_colors (this (mount p d)) = {| rgb := ""; hex := "" |})
    by (unfold mount, componentDidMount; rewrite Component.call_this; reflexivity).
  revert Hp Hpend Htr Hstate. generalize (mount p d). intros m Hp Hpend Htr Hstate.
  assert (Hp1 : props (this (pickColor m)) = p)
    by (rewrite Lifecycle.pickColor_this; exact Hp).
  assert (Hs1 : state_colors (this (pickColor m)) = {| rgb := ""; hex := "" |})
    by (rewrite Lifecycle.pickColor_this; exact Hstate).
  assert (Hpend1 : pending (pickColor m) = [])
    by (rewrite Lifecycle.pickColor_pending; exact Hpend).
  assert (Htr1 : trace (pickColor m) = called p onInit ++ called p onPickStart)
    by (rewrite Lifecycle.pickColor_trace, Htr, Hp; reflexivity).
  revert Hp1 Hs1 Hpend1 Htr1. generalize (pickColor m). clear m Hp Hpend Htr Hstate.
  intros m Hp Hstate Hpend Htr.
  assert (Ht2 : props (this (targetToCanvas e m)) = p /\
                state_colors (this (targetToCanvas e m)) = {| rgb := ""; hex := "" |} /\
                picking (this (targetToCanvas e m)) = false)
    by (rewrite Session.targetToCanvas_this; cbn [props state_colors picking];
        split; [exact Hp|split; [exact Hstate|reflexivity]]).
  assert (Hpend2 : pending (targetToCanvas e m)
                   = [ {| job_offsetX := offsetX e; job_offsetY := offsetY e;
                          job_pickRadius := None |} ])
    by (rewrite Teardown.targetToCanvas_pending, Hpend, Hp, Hnone; reflexivity).
  assert (Htr2 : trace (targetToCanvas e m)
                 = called p onInit ++ called p onPickStart
                   ++ Html2canvas (target e)
                      :: called p onPickClick ++ called p onPickStop)
    by (rewrite Teardown.targetToCanvas_trace, Htr, Hp, <- app_assoc; reflexivity).
  revert Ht2 Hpend2 Htr2. generalize (targetToCanvas e m). clear m Hp Hstate Hpend Htr.
  intros m (Hp & Hstate & Hpick) Hpend Htr.
  rewrite (Lifecycle.fulfil_single _ _ _ _ _ _ Hpend). cbn [settled].
  eexists. split; [reflexivity|]. unfold extractColor.
  set (m1 := emit (GetCanvasPixelColor (offsetX e) (offsetY e)) (set_pending [] m)).
  assert (Ht1 : this m1 = this m) by reflexivity.
  assert (Hpend1 : pending m1 = []) by reflexivity.
  assert (Htr1 : trace m1 = trace m ++ [GetCanvasPixelColor (offsetX e) (offsetY e)])
    by reflexivity.
  clearbody m1.
  rewrite Lifecycle.setColors_trace, Session.setColors_state, Lifecycle.setColors_pending.
  rewrite (proj2 (Lifecycle.setColors_this _ _)), Htr1, Ht1, Htr, Hp, Hstate, Hpick, Hpend1.
  split; [|split; [reflexivity|split; reflexivity]].
  rewrite <- !app_assoc. cbn [app]. rewrite <- !app_assoc. reflexivity.
Qed.

Lemma single_pixel_pick_witness :
  let p := {| supplied := fun h => match h with onPickEnd => true | _ => false end;
              cursorActive_prop := None; cursorInactive_prop := None;
              passThrough := Some "colors"; pickRadius := None |} in
  let d := {| listeners := []; body_cursor := "auto" |} in
  let e := {| target := "page"; offsetX := -4; offsetY := 7 |} in
  let canvas : Canvas := fun x y => {| r := 10; g := 20; b := 30 |} in
  exists w,
    run 0 [Press; Click e; Fulfil canvas] (mount p d) = Some w /\
    trace w
    = called p onInit ++ called p onPickStart
      ++ Html2canvas (target e) :: called p onPickClick ++ called p onPickStop
      ++ GetCanvasPixelColor (offsetX e) (offsetY e)
         :: OnChange (encode (canvas (offsetX e) (offsetY e)))
         :: called p onPickEnd /\
    state_colors (this w)
    = (if JS.truthy (passThrough p) then encode (canvas (offsetX e) (offsetY e))
       else {| rgb := ""; hex := "" |}) /\
    picking (this w) = false /\ pending w = [].
Proof.
  cbv zeta.
  apply (single_pixel_pick
           {| supplied := fun h => match h with onPickEnd => true | _ => false end;
              cursorActive_prop := None; cursorInactive_prop := None;
              passThrough := Some "colors"; pickRadius := None |}).
  reflexivity.
Defined.

(** X12: on a document that holds neither listener, [pickColor] appends
    the click and the keydown listener, and [stopPicking] after it gives
    the listeners back as they were, with the inactive cursor; a second
    [pickColor] in a row registers nothing more and changes neither the
    instance nor the document. *)
Theorem pick_then_stop_restores_listeners (w : World) :
  listening "click" TargetToCanvas w = false ->
  listening "keydown" HandleKeydown w = false ->
  listeners (document (pickColor w)) = listeners (document w) ++ armed_listeners /\
  document (stopPicking (pickColor w))
  = {| listeners := listeners (document w); body_cursor := cursorInactive (this w) |} /\
  document (pickColor (pickColor w)) = document (pickColor w) /\
  this (pickColor (pickColor w)) = this (pickColor w).
Proof.
  intros Hc Hk. destruct (Session.pickColor_document w) as (Hcur & _ & Hls).
  specialize (Hls Hc Hk). split; [exact Hls|]. split; [|split].
  - rewrite Teardown.stopPicking_document, Hls, Lifecycle.pickColor_this.
    cbn [cursorInactive]. f_equal.
    rewrite (filter_app _ (listeners (document w)) armed_listeners), filter_app.
    rewrite !Session.filter_unlistened by assumption.
    apply app_nil_r.
  - destruct (Lifecycle.pickColor_listens w) as [Lc Lk].
    destruct (pickColor w) as [t [ls cur] pend tr] eqn:E.
    assert (Hact : cur = cursorActive t).
    { cbn [document body_cursor] in Hcur.
      pose proof (Lifecycle.pickColor_this w) as Ht. rewrite E in Ht. cbn [this] in Ht.
      rewrite Ht. exact Hcur. }
    unfold listening in Lc, Lk. cbn [document listeners] in Lc, Lk.
    unfold pickColor, call. cbn [this].
    destruct (supplied (props t) onPickStart);
      unfold addEventListener, listening; cbn -[existsb same_listener];
      rewrite Lc; cbn -[existsb same_listener]; rewrite Lk; rewrite Hact; reflexivity.
  - rewrite !Lifecycle.pickColor_this. reflexivity.
Qed.

Lemma pick_then_stop_restores_listeners_witness :
  let w := {| this := new_EyeDropper
                        {| supplied := fun _ => true; cursorActive_prop := None;
                           cursorInactive_prop := None; passThrough := None;
                           pickRadius := None |};
              document := {| listeners := [("keypress", HandleKeydown)];
                             body_cursor := "auto" |};
              pending := []; trace := [] |} in
  listeners (document (pickColor w)) = listeners (document w) ++ armed_listeners /\
  document (stopPicking (pickColor w))
  = {| listeners := listeners (document w); body_cursor := cursorInactive (this w) |} /\
  document (pickColor (pickColor w)) = document (pickColor w) /\
  this (pickColor (pickColor w)) = this (pickColor w).
Proof.
  cbv zeta. apply pick_then_stop_restores_listeners; reflexivity.
Defined.

(** X13: the constructor never leaves a cursor empty: a cursor passed by
    the host is kept unless it is the empty string, and a missing or empty
    one is replaced by copy (active) or auto (inactive); the instance
    starts idle with empty colour strings. *)
Theorem constructor_cursors (p : Props) :
  cursorActive (new_EyeDropper p) <> "" /\
  cursorInactive (new_EyeDropper p) <> "" /\
  (forall s, s <> "" ->
     (cursorActive_prop p = Some s -> cursorActive (new_EyeDropper p) = s) /\
     (cursorInactive_prop p = Some s -> cursorInactive (new_EyeDropper p) = s)) /\
  (cursorActive_prop p = None \/ cursorActive_prop p = Some "" ->
     cursorActive (new_EyeDropper p) = "copy") /\
  (cursorInactive_prop p = None \/ cursorInactive_prop p = Some "" ->
     cursorInactive (new_EyeDropper p) = "auto") /\
  picking (new_EyeDropper p) = false /\
  state_colors (new_EyeDropper p) = {| rgb := ""; hex := "" |}.
Proof.
  assert (Hne : forall o default, default <> "" -> or_default o default <> "").
  { intros [s|] default Hd; [|exact Hd]. unfold or_default, JS.truthy.
    destruct (s =? "")%string eqn:E; [exact Hd|]. apply String.eqb_neq. exact E. }
  assert (Hkeep : forall s default, s <> "" -> or_default (Some s) default = s).
  { intros s default Hs. unfold or_default, JS.truthy.
    apply String.eqb_neq in Hs. rewrite Hs. reflexivity. }
  cbn [new_EyeDropper cursorActive cursorInactive picking state_colors].
  split; [apply Hne; discriminate|]. split; [apply Hne; discriminate|].
  split; [|split; [|split; [|split; reflexivity]]].
  - intros s Hs. split; intros ->; apply Hkeep; exact Hs.
  - intros [-> | ->]; reflexivity.
  - intros [-> | ->]; reflexivity.
Qed.

Lemma constructor_cursors_witness :
  let p := {| supplied := fun _ => false; cursorActive_prop := Some "crosshair";
              cursorInactive_prop := Some ""; passThrough := None;
              pickRadius := None |} in
  cursorActive (new_EyeDropper p) = "crosshair" /\
  cursorInactive (new_EyeDropper p) = "auto".
Proof.
  cbv zeta.
  destruct (constructor_cursors
              {| supplied := fun _ => false; cursorActive_prop := Some "crosshair";
                 cursorInactive_prop := Some ""; passThrough := None;
                 pickRadius := None |}) as (_ & _ & Hkeep & _ & Hdefault & _).
  split.
  - apply (Hkeep "crosshair"); [discriminate|reflexivity].
  - apply Hdefault. right. reflexivity.
Defined.
